(** * Directory tree visualizer: scan, text rendering and size formatting

    A shallow embedding of [directory_tree_visualizer.py]
    (class [DirectoryTreeVisualizer]) together with the properties its
    specification states about it.

    Conventions of the embedding.
    - A Python [str] is a list of Unicode code points ([pystr]), so that
      [len] and slicing count characters exactly as Python does (the
      renderer's glyphs and icons are outside ASCII).
    - A Python [int] is a [Z].  A Python [float] that the code can reach is
      a dyadic rational and is carried as an exact [Q]; the conversion
      from [int] rounds to 53 significant bits as CPython does.
    - The attributes of the visualizer object that methods assign
      ([tree_data], [root_path], [file_count], [folder_count],
      [total_size]) form a record that is passed in and returned.
    - The file system is a finite tree of entries: what [iterdir],
      [is_dir], [is_file] and [stat] answer during one scan. *)

From Stdlib Require Import ZArith QArith Qabs Bool List Lia String Ascii.
From Stdlib Require Import DecimalString Sorted Permutation.
Import ListNotations.

Local Open Scope Z_scope.

Set Warnings "-register-all".

(* ================================================================== *)
(** ** Python strings *)

Definition pystr : Type := list N.

(** An ASCII literal as a Python string. *)
Definition lit (s : string) : pystr :=
  map N_of_ascii (list_ascii_of_string s).

Arguments lit s%_string.

Definition str_eqb (a b : pystr) : bool :=
  if list_eq_dec N.eq_dec a b then true else false.

(** [len(s)] *)
Definition len (s : pystr) : Z := Z.of_nat (List.length s).

(** [s.startswith(p)] *)
Fixpoint startswith (s p : pystr) : bool :=
  match p, s with
  | [], _ => true
  | _ :: _, [] => false
  | c :: p', d :: s' => (c =? d)%N && startswith s' p'
  end.

(** [s.endswith(p)] *)
Definition endswith (s p : pystr) : bool :=
  startswith (rev s) (rev p).

(** [s[:k]]: a negative [k] counts from the end, and the bounds are
    clipped to the string. *)
Definition slice_to (s : pystr) (k : Z) : pystr :=
  if k <? 0 then firstn (Z.to_nat (Z.max 0 (len s + k))) s
  else firstn (Z.to_nat k) s.

(** [s[i:]] for [0 <= i]. *)
Definition slice_from (s : pystr) (i : nat) : pystr := skipn i s.

(** [sep.join(parts)] *)
Fixpoint join (sep : pystr) (parts : list pystr) : pystr :=
  match parts with
  | [] => []
  | [p] => p
  | p :: rest => p ++ sep ++ join sep rest
  end.

(** [x in xs] for a list of strings. *)
Definition str_in (x : pystr) (xs : list pystr) : bool :=
  existsb (str_eqb x) xs.

(** [str(n)] and [f"{n}"] for an [int]. *)
Definition str_of_int (n : Z) : pystr :=
  lit (NilZero.string_of_int (Z.to_int n)).

(** Comparison of two strings, as Python orders [str]: lexicographic on
    code points.  [str_leb a b] is [a <= b]. *)
Fixpoint str_leb (a b : pystr) : bool :=
  match a, b with
  | [], _ => true
  | _ :: _, [] => false
  | c :: a', d :: b' =>
      if (c <? d)%N then true
      else if (d <? c)%N then false
      else str_leb a' b'
  end.

(* ================================================================== *)
(** ** Numbers: [int], [float] and the [.1f] format *)

(** [float(n)]: the double nearest to the integer [n], ties to even.
    Integers of at most 53 bits are exact.  (CPython raises
    [OverflowError] from [2^1024] on; no file size comes near.) *)
Definition float_of_int (n : Z) : Z :=
  let a := Z.abs n in
  let bits := Z.log2 a + 1 in
  if bits <=? 53 then n
  else
    let s := bits - 53 in
    let q := Z.shiftr a s in
    let r := Z.land a (Z.ones s) in
    let half := Z.shiftl 1 (s - 1) in
    let q' := if (half <? r) || ((r =? half) && Z.odd q) then q + 1 else q in
    Z.sgn n * Z.shiftl q' s.

(** The value held by the variable [size_bytes]: the [int] argument
    until the first division, a [float] afterwards. *)
Inductive pynum :=
| PyInt (n : Z)
| PyFloat (q : Q).

Definition as_float (v : pynum) : Q :=
  match v with
  | PyInt n => inject_Z (float_of_int n)
  | PyFloat q => q
  end.

(** [v >= 1024]; an [int] is compared exactly. *)
Definition ge_1024 (v : pynum) : bool :=
  match v with
  | PyInt n => 1024 <=? n
  | PyFloat q => Qle_bool (inject_Z 1024) q
  end.

(** [v / 1024.0]: dividing a double by a power of two is exact. *)
Definition div_1024 (v : pynum) : pynum :=
  PyFloat (as_float v / inject_Z 1024)%Q.

(** Nearest integer to [q * 10] for [0 <= q], ties to even. *)
Definition round_tenths (q : Q) : Z :=
  let a := Qnum q * 10 in
  let d := Zpos (Qden q) in
  let fl := a / d in
  let r := a mod d in
  if (d <? 2 * r) || ((2 * r =? d) && Z.odd fl) then fl + 1 else fl.

(** [f"{x:.1f}"] for a float [x]: the exact value of the double,
    correctly rounded to one decimal, ties to even. *)
Definition fmt_1f (x : Q) : pystr :=
  let t := round_tenths (Qabs x) in
  (if Qnum x <? 0 then lit "-" else []) ++
  str_of_int (t / 10) ++ lit "." ++ str_of_int (t mod 10).

(** [f"{v:.1f}"]: an [int] is converted to [float] by the format. *)
Definition fmt_num_1f (v : pynum) : pystr := fmt_1f (as_float v).

Definition size_names : list pystr :=
  [lit "B"; lit "KB"; lit "MB"; lit "GB"; lit "TB"].

(** The [while] loop of [format_size]; [fuel] bounds the number of
    iterations, which [i < len(size_names) - 1] limits to four. *)
Fixpoint size_loop (fuel : nat) (size_bytes : pynum) (i : Z) : pynum * Z :=
  match fuel with
  | O => (size_bytes, i)
  | S fuel' =>
      if ge_1024 size_bytes && (i <? Z.of_nat (List.length size_names) - 1)
      then size_loop fuel' (div_1024 size_bytes) (i + 1)
      else (size_bytes, i)
  end.

(** [DirectoryTreeVisualizer.format_size] *)
Definition format_size (size_bytes : Z) : pystr :=
  if size_bytes =? 0 then lit "0 B"
  else
    let '(v, i) := size_loop (List.length size_names) (PyInt size_bytes) 0 in
    fmt_num_1f v ++ lit " " ++ nth (Z.to_nat i) size_names [].

(* ================================================================== *)
(** ** Paths ([pathlib.Path], POSIX flavour) *)

(** [str.lower] is a built-in whose Unicode case mapping is left
    abstract: every property below holds whatever it maps to. *)
Class StrLower := lower : pystr -> pystr.

(** ASCII case folding, the instance used to run examples. *)
Definition ascii_lower_char (c : N) : N :=
  if ((65 <=? c) && (c <=? 90))%N then (c + 32)%N else c.

Definition ascii_lower : pystr -> pystr := map ascii_lower_char.

(** A resolved absolute path: its components below the root [/]. *)
Definition Path : Type := list pystr.

(** [path.name]: the final component, empty for the root. *)
Definition path_name (p : Path) : pystr := last p [].

(** [str(path)] *)
Definition path_str (p : Path) : pystr := lit "/" ++ join (lit "/") p.

(** The path of an entry [name] yielded by [path.iterdir()]. *)
Definition path_child (p : Path) (name : pystr) : Path := p ++ [name].

(** [s.rfind('.')], with [None] for Python's [-1]. *)
Fixpoint rfind_dot (s : pystr) : option nat :=
  match s with
  | [] => None
  | c :: s' =>
      match rfind_dot s' with
      | Some i => Some (S i)
      | None => if (c =? 46)%N then Some O else None
      end
  end.

(** [path.suffix] computed from the final component, as pathlib
    defines it: [i = name.rfind('.')], and the suffix is [name[i:]] when
    [0 < i < len(name) - 1], empty otherwise. *)
Definition suffix (name : pystr) : pystr :=
  match rfind_dot name with
  | Some i =>
      if (0 <? Z.of_nat i) && (Z.of_nat i <? len name - 1)
      then slice_from name i else []
  | None => []
  end.

(* ================================================================== *)
(** ** The file system seen by one scan *)

Record file_stat := {
  st_size : Z;        (* [item.stat().st_size] *)
  st_mtime : pystr    (* [datetime.fromtimestamp(st_mtime).isoformat()] *)
}.

(** What a path denotes.  [is_dir()] holds of [FsDir] and [is_file()] of
    [FsFile] (both follow symbolic links); [FsOther] is anything else
    (a dangling link, a socket, a device).  [None] stands for the
    [OSError] raised by [stat()] on a file, or by [iterdir()] and by the
    queries on its entries for a directory.  The tree is finite: links
    that close a cycle are outside the model. *)
Inductive fsobj :=
| FsFile (st : option file_stat)
| FsDir (entries : option (list (pystr * fsobj)))
| FsOther.

Definition is_dir (o : fsobj) : bool :=
  match o with FsDir _ => true | _ => false end.

Definition is_file (o : fsobj) : bool :=
  match o with FsFile _ => true | _ => false end.

(** The queries [scan_directory] makes on its argument:
    [Path(path).resolve()] and what is found there ([None] when
    [exists()] is false). *)
Record filesystem := {
  resolve : pystr -> Path;
  lookup : Path -> option fsobj
}.

(* ================================================================== *)
(** ** Tree nodes and the visualizer object *)

(** The dictionaries built by the scan, by their ['type'] key. *)
Inductive node :=
| Directory (name path : pystr) (size : Z) (children : list node)
            (file_count folder_count : Z)
| File (name path : pystr) (size : Z) (extension modified : pystr).

Definition node_name (n : node) : pystr :=
  match n with Directory nm _ _ _ _ _ | File nm _ _ _ _ => nm end.

Definition node_size (n : node) : Z :=
  match n with Directory _ _ s _ _ _ | File _ _ s _ _ => s end.

Definition node_children (n : node) : list node :=
  match n with Directory _ _ _ cs _ _ => cs | File _ _ _ _ _ => [] end.

(** ['file_count'] and ['folder_count'] are keys of directory nodes
    only; the code reads them on directory nodes only. *)
Definition node_file_count (n : node) : Z :=
  match n with Directory _ _ _ _ fc _ => fc | File _ _ _ _ _ => 0 end.

Definition node_folder_count (n : node) : Z :=
  match n with Directory _ _ _ _ _ dc => dc | File _ _ _ _ _ => 0 end.

Definition is_directory (n : node) : bool :=
  match n with Directory _ _ _ _ _ _ => true | File _ _ _ _ _ => false end.

(** The attributes of [self] that the methods read and assign. *)
Record visualizer := {
  tree_data : option node;
  root_path : option Path;
  file_count : Z;
  folder_count : Z;
  total_size : Z
}.

(** [DirectoryTreeVisualizer.__init__] *)
Definition init : visualizer :=
  {| tree_data := None; root_path := None;
     file_count := 0; folder_count := 0; total_size := 0 |}.

(** A bound of the size filter: a finite number or [float('inf')]. *)
Inductive bound :=
| Finite (q : Q)
| PosInf.

(** [file_size < b] *)
Definition lt_bound (file_size : Z) (b : bound) : bool :=
  match b with
  | Finite q => negb (Qle_bool q (inject_Z file_size))
  | PosInf => true
  end.

(** [file_size > b] *)
Definition gt_bound (file_size : Z) (b : bound) : bool :=
  match b with
  | Finite q => negb (Qle_bool (inject_Z file_size) q)
  | PosInf => false
  end.

(** The keyword arguments of [scan_directory]. *)
Record scan_options := {
  max_depth : option Z;
  show_hidden : bool;
  include_files : bool;
  extensions : option (list pystr);
  size_filter : option (bound * bound)
}.

(** The defaults of [scan_directory]. *)
Definition default_options : scan_options :=
  {| max_depth := None; show_hidden := false; include_files := true;
     extensions := None; size_filter := None |}.

(* ================================================================== *)
(** ** The scanner *)

(** The sort key [(x.is_file(), x.name.lower())] and the order Python
    gives such tuples: [False < True], then the strings. *)
Definition sort_key : Type := bool * pystr.

Definition key_leb (a b : sort_key) : bool :=
  match fst a, fst b with
  | false, true => true
  | true, false => false
  | _, _ => str_leb (snd a) (snd b)
  end.

(** [list.sort(key=...)] is stable; a stable sort is determined by the
    order of the keys, so insertion from the right stands for it. *)
Fixpoint insert_by {A : Type} (key : A -> sort_key) (x : A) (l : list A)
  : list A :=
  match l with
  | [] => [x]
  | y :: l' =>
      if key_leb (key x) (key y) then x :: l else y :: insert_by key x l'
  end.

Definition sort_by {A : Type} (key : A -> sort_key) (l : list A) : list A :=
  fold_right (insert_by key) [] l.

(** The node [_scan_recursive] starts from. *)
Definition new_node (path : Path) : node :=
  Directory (path_name path) (path_str path) 0 [] 0 0.

(** The four updates of the parent node after a subdirectory. *)
Definition add_directory (nd child_node : node) : node :=
  match nd with
  | Directory nm p s cs fc dc =>
      Directory nm p (s + node_size child_node) (cs ++ [child_node])
                (fc + node_file_count child_node)
                (dc + (node_folder_count child_node + 1))
  | File _ _ _ _ _ => nd
  end.

(** The three updates of the parent node after a file. *)
Definition add_file (nd file_node : node) (file_size : Z) : node :=
  match nd with
  | Directory nm p s cs fc dc =>
      Directory nm p (s + file_size) (cs ++ [file_node]) (fc + 1) dc
  | File _ _ _ _ _ => nd
  end.

Definition incr_folder_count (self : visualizer) : visualizer :=
  {| tree_data := tree_data self; root_path := root_path self;
     file_count := file_count self;
     folder_count := folder_count self + 1;
     total_size := total_size self |}.

Definition count_file (self : visualizer) (file_size : Z) : visualizer :=
  {| tree_data := tree_data self; root_path := root_path self;
     file_count := file_count self + 1;
     folder_count := folder_count self;
     total_size := total_size self + file_size |}.

(** [max_depth is not None and current_depth >= max_depth] *)
Definition depth_reached (opts : scan_options) (current_depth : Z) : bool :=
  match max_depth opts with
  | Some m => m <=? current_depth
  | None => false
  end.

(** [not show_hidden and item.name.startswith('.')] *)
Definition skip_hidden (opts : scan_options) (name : pystr) : bool :=
  negb (show_hidden opts) && startswith name (lit ".").

Section Scanner.
Context {L : StrLower}.

(** [lambda x: (x.is_file(), x.name.lower())] *)
Definition item_key (item : pystr * fsobj) : sort_key :=
  (is_file (snd item), lower (fst item)).

(** [extensions and item.suffix.lower() not in
    [ext.lower() for ext in extensions]]; an empty list is false. *)
Definition extension_rejects (opts : scan_options) (name : pystr) : bool :=
  match extensions opts with
  | None | Some [] => false
  | Some exts => negb (str_in (lower (suffix name)) (map lower exts))
  end.

(** [if size_filter: ... file_size < min_size or file_size > max_size];
    a pair is always true. *)
Definition size_rejects (opts : scan_options) (file_size : Z) : bool :=
  match size_filter opts with
  | None => false
  | Some (min_size, max_size) =>
      lt_bound file_size min_size || gt_bound file_size max_size
  end.

(** The type of [_scan_recursive] once the directory and the filters
    are fixed: path, depth and [self] in, node and [self] out. *)
Definition scan_fn : Type :=
  Path -> Z -> visualizer -> node * visualizer.

(** One turn of the [for item in items] loop.  [recurse] is the
    recursive call on the item. *)
Definition scan_item (opts : scan_options) (path : Path)
    (current_depth : Z) (recurse : scan_fn) (item : pystr * fsobj)
    (acc : node * visualizer) : node * visualizer :=
  let '(nd, self) := acc in
  let '(name, obj) := item in
  if skip_hidden opts name then acc
  else if is_dir obj then
    let '(child_node, self1) :=
      recurse (path_child path name) (current_depth + 1) self in
    (add_directory nd child_node, incr_folder_count self1)
  else if include_files opts && is_file obj then
    match obj with
    | FsFile (Some st) =>
        let file_size := st_size st in
        if extension_rejects opts name then acc
        else if size_rejects opts file_size then acc
        else
          let file_node :=
            File name (path_str (path_child path name)) file_size
                 (suffix name) (st_mtime st) in
          (add_file nd file_node file_size, count_file self file_size)
    | _ => acc   (* [except (OSError, PermissionError): continue] *)
    end
  else acc.

(** The loop over the sorted items, the recursive call abstracted. *)
Definition scan_items (opts : scan_options) (path : Path)
    (current_depth : Z) (recurse : fsobj -> scan_fn)
    (items : list (pystr * fsobj)) (acc : node * visualizer)
  : node * visualizer :=
  fold_left
    (fun a item =>
       scan_item opts path current_depth (recurse (snd item)) item a)
    items acc.

(** [DirectoryTreeVisualizer._scan_recursive].  [dir] is what [path]
    denotes.  The recursion is on the file-system tree; so that it is
    visibly structural, every entry is paired with its recursive call
    before the entries are sorted ([_scan_recursive_eq] below states
    the function as the source has it). *)
Fixpoint _scan_recursive (opts : scan_options) (dir : fsobj) (path : Path)
    (current_depth : Z) (self : visualizer) {struct dir}
  : node * visualizer :=
  let nd := new_node path in
  if depth_reached opts current_depth then (nd, self)
  else
    match dir with
    | FsDir (Some entries) =>
        let fix bind (l : list (pystr * fsobj))
          : list ((pystr * fsobj) * scan_fn) :=
          match l with
          | [] => []
          | (name, obj) :: l' =>
              ((name, obj), _scan_recursive opts obj) :: bind l'
          end in
        let items := sort_by (fun x => item_key (fst x)) (bind entries) in
        fold_left
          (fun a x => scan_item opts path current_depth (snd x) (fst x) a)
          items (nd, self)
    | _ => (nd, self)   (* [except (OSError, PermissionError): pass] *)
    end.

(** The exceptions [scan_directory] raises, with their messages. *)
Inductive exn :=
| FileNotFoundError (msg : pystr)
| ValueError (msg : pystr).

(** A call either returns a value or raises; either way it leaves
    the object in some state. *)
Inductive outcome (A : Type) :=
| Returned (value : A) (self : visualizer)
| Raised (e : exn) (self : visualizer).

(** The first four assignments of [scan_directory]. *)
Definition reset (self : visualizer) (p : Path) : visualizer :=
  {| tree_data := tree_data self; root_path := Some p;
     file_count := 0; folder_count := 0; total_size := 0 |}.

Definition set_tree_data (self : visualizer) (t : node) : visualizer :=
  {| tree_data := Some t; root_path := root_path self;
     file_count := file_count self; folder_count := folder_count self;
     total_size := total_size self |}.

(** [DirectoryTreeVisualizer.scan_directory] *)
Definition scan_directory (fs : filesystem) (self : visualizer)
    (path : pystr) (opts : scan_options) : outcome node :=
  let p := resolve fs path in
  let self := reset self p in
  match lookup fs p with
  | None =>
      Raised node (FileNotFoundError (lit "Directory not found: " ++ path))
             self
  | Some dir =>
      if negb (is_dir dir) then
        Raised node (ValueError (lit "Path is not a directory: " ++ path))
               self
      else
        let '(t, self1) := _scan_recursive opts dir p 0 self in
        Returned node t (set_tree_data self1 t)
  end.

End Scanner.

Arguments Returned {A} value self.
Arguments Raised {A} e self.

(* ================================================================== *)
(** ** The text renderer *)

(** The values of one entry of [self.styles]. *)
Record style_chars := {
  sc_branch : pystr;
  sc_last : pystr;
  sc_vertical : pystr;
  sc_space : pystr
}.

(** U+251C U+2500 U+2500 and the like: the box-drawing glyphs. *)
Definition unicode_style : style_chars :=
  {| sc_branch := [9500; 9472; 9472; 32]%N;
     sc_last := [9492; 9472; 9472; 32]%N;
     sc_vertical := [9474; 32; 32; 32]%N;
     sc_space := lit "    " |}.

Definition ascii_style : style_chars :=
  {| sc_branch := lit "|-- "; sc_last := lit "`-- ";
     sc_vertical := lit "|   "; sc_space := lit "    " |}.

Definition simple_style : style_chars :=
  {| sc_branch := lit "  "; sc_last := lit "  ";
     sc_vertical := lit "  "; sc_space := lit "  " |}.

(** [self.styles] *)
Definition styles : list (pystr * style_chars) :=
  [(lit "unicode", unicode_style); (lit "ascii", ascii_style);
   (lit "simple", simple_style)].

(** [d.get(key, default)] on a dictionary with string keys. *)
Fixpoint dict_get {V : Type} (d : list (pystr * V)) (key : pystr)
    (default : V) : V :=
  match d with
  | [] => default
  | (k, v) :: d' => if str_eqb k key then v else dict_get d' key default
  end.

(** The folder icon, U+1F4C1, and the default file icon, U+1F4C4. *)
Definition folder_icon : pystr := [128193]%N.
Definition page_icon : pystr := [128196]%N.

Definition icon_map : list (pystr * pystr) :=
  [
    (lit ".py", [128013]%N);
    (lit ".js", [128220]%N);
    (lit ".html", [127760]%N);
    (lit ".css", [127912]%N);
    (lit ".jpg", [128444; 65039]%N);
    (lit ".png", [128444; 65039]%N);
    (lit ".gif", [128444; 65039]%N);
    (lit ".svg", [128444; 65039]%N);
    (lit ".mp4", [127916]%N);
    (lit ".avi", [127916]%N);
    (lit ".mkv", [127916]%N);
    (lit ".mov", [127916]%N);
    (lit ".mp3", [127925]%N);
    (lit ".wav", [127925]%N);
    (lit ".flac", [127925]%N);
    (lit ".ogg", [127925]%N);
    (lit ".pdf", [128196]%N);
    (lit ".doc", [128221]%N);
    (lit ".docx", [128221]%N);
    (lit ".txt", [128196]%N);
    (lit ".zip", [128230]%N);
    (lit ".rar", [128230]%N);
    (lit ".7z", [128230]%N);
    (lit ".tar", [128230]%N);
    (lit ".exe", [9881; 65039]%N);
    (lit ".msi", [9881; 65039]%N);
    (lit ".deb", [9881; 65039]%N);
    (lit ".rpm", [9881; 65039]%N);
    (lit ".json", [128203]%N);
    (lit ".xml", [128203]%N);
    (lit ".yml", [128203]%N);
    (lit ".yaml", [128203]%N);
    (lit ".md", [128214]%N);
    (lit ".readme", [128214]%N)
  ].

(** [line[:max_width-3] + "..."] when [len(line) > max_width]. *)
Definition truncate (max_width : Z) (line : pystr) : pystr :=
  if max_width <? len line
  then slice_to line (max_width - 3) ++ lit "..."
  else line.

Section TextRenderer.
Context {L : StrLower}.

(** [DirectoryTreeVisualizer._get_file_icon] *)
Definition _get_file_icon (extension : pystr) : pystr :=
  dict_get icon_map (lower extension) page_icon.

(** The icon and the annotated name of a node: the first branch of
    [_render_node_text]. *)
Definition icon_and_name (nd : node) (show_size show_count : bool)
  : pystr * pystr :=
  match nd with
  | Directory name _ size _ fc dc =>
      let total_items := fc + dc in
      let info_parts :=
        (if show_count && (0 <? total_items)
         then [str_of_int total_items ++ lit " items"] else []) ++
        (if show_size && (0 <? size) then [format_size size] else []) in
      (folder_icon,
       match info_parts with
       | [] => name
       | _ => name ++ lit " (" ++ join (lit ", ") info_parts ++ lit ")"
       end)
  | File name _ size extension _ =>
      (_get_file_icon extension,
       if show_size
       then name ++ lit " (" ++ format_size size ++ lit ")"
       else name)
  end.

(** [f"{prefix}{connector}{icon} {name}"]: the line of a node before
    it is cut to the width. *)
Definition compose_line (nd : node) (prefix : pystr) (is_last : bool)
    (sc : style_chars) (show_size show_count : bool) : pystr :=
  let '(icon, name) := icon_and_name nd show_size show_count in
  let connector := if is_last then sc_last sc else sc_branch sc in
  prefix ++ connector ++ icon ++ lit " " ++ name.

(** [DirectoryTreeVisualizer._render_node_text]; the list [lines]
    that the method appends to is passed in and returned. *)
Fixpoint _render_node_text (nd : node) (prefix : pystr) (is_last : bool)
    (sc : style_chars) (show_size show_count : bool) (max_width : Z)
    (lines : list pystr) {struct nd} : list pystr :=
  let line := compose_line nd prefix is_last sc show_size show_count in
  let lines := lines ++ [truncate max_width line] in
  match nd with
  | Directory _ _ _ children _ _ =>
      let new_prefix :=
        prefix ++ (if is_last then sc_space sc else sc_vertical sc) in
      let len_children := Z.of_nat (List.length children) in
      let fix each (cs : list node) (i : Z) (lines : list pystr)
        : list pystr :=
        match cs with
        | [] => lines
        | child :: cs' =>
            let child_is_last := (i =? len_children - 1) in
            each cs' (i + 1)
                 (_render_node_text child new_prefix child_is_last sc
                                    show_size show_count max_width lines)
        end in
      each children 0 lines
  | File _ _ _ _ _ => lines
  end.

(** [str(self.root_path)] *)
Definition root_path_str (self : visualizer) : pystr :=
  match root_path self with
  | Some p => path_str p
  | None => lit "None"
  end.

(** The header line of [render_text_tree]. *)
Definition header_line (self : visualizer) (t : node)
    (show_size show_count : bool) : pystr :=
  let root_name :=
    match node_name t with
    | [] => root_path_str self
    | nm => nm
    end in
  let header := folder_icon ++ lit " " ++ root_name in
  if show_count then
    header ++ lit " (" ++ str_of_int (folder_count self) ++
    lit " folders, " ++ str_of_int (file_count self) ++ lit " files" ++
    (if show_size then lit ", " ++ format_size (total_size self) else []) ++
    lit ")"
  else if show_size then
    header ++ lit " (" ++ format_size (total_size self) ++ lit ")"
  else header.

(** The list [lines] of [render_text_tree] when it is joined. *)
Definition text_lines (self : visualizer) (t : node) (style : pystr)
    (show_size show_count : bool) (max_width : Z) : list pystr :=
  let sc := dict_get styles style unicode_style in
  let lines := [header_line self t show_size show_count; []] in
  _render_node_text t [] true sc show_size show_count max_width lines.

Definition no_tree_message : pystr :=
  lit "No tree data available. Please scan a directory first.".

(** [DirectoryTreeVisualizer.render_text_tree] *)
Definition render_text_tree (self : visualizer) (style : pystr)
    (show_size show_count : bool) (max_width : Z) : pystr :=
  match tree_data self with
  | None => no_tree_message
  | Some t =>
      join [10%N] (text_lines self t style show_size show_count max_width)
  end.
End TextRenderer.

(* ================================================================== *)
(** ** The exports *)

(** What an export does: it raises, or it writes [content] to the file
    [filename].  Neither assigns an attribute of [self]. *)
Inductive export_result :=
| ExportRaised (e : exn)
| Wrote (filename content : pystr).

Section Exports.
(** The text of the HTML page ([_generate_html]) and of the JSON
    document ([json.dump] of [export_data], which reads the clock) are
    left abstract: the properties below concern the guard only. *)
Variable _generate_html : visualizer -> node -> pystr -> pystr.
Variable json_document : visualizer -> node -> pystr.

(** [DirectoryTreeVisualizer.export_html] *)
Definition export_html (self : visualizer) (filename title : pystr)
  : export_result :=
  match tree_data self with
  | None => ExportRaised (ValueError (lit "No tree data available"))
  | Some t => Wrote filename (_generate_html self t title)
  end.

(** [DirectoryTreeVisualizer.export_json] *)
Definition export_json (self : visualizer) (filename : pystr)
  : export_result :=
  match tree_data self with
  | None => ExportRaised (ValueError (lit "No tree data available"))
  | Some t => Wrote filename (json_document self t)
  end.
End Exports.

(* ================================================================== *)
(** ** Vocabulary of the properties *)

(** All the nodes of a tree, the root first. *)
Fixpoint nodes (n : node) : list node :=
  n :: match n with
       | Directory _ _ _ children _ _ => flat_map nodes children
       | File _ _ _ _ _ => []
       end.

(** The nodes strictly below the root. *)
Definition descendants (n : node) : list node :=
  flat_map nodes (node_children n).

(** The nodes of a tree with their depth, the root being at [depth]. *)
Fixpoint nodes_at (depth : Z) (n : node) : list (Z * node) :=
  (depth, n) ::
  match n with
  | Directory _ _ _ children _ _ => flat_map (nodes_at (depth + 1)) children
  | File _ _ _ _ _ => []
  end.

Definition sum_sizes (l : list node) : Z :=
  fold_right (fun c acc => node_size c + acc) 0 l.

(** The total size of the file nodes of a tree. *)
Fixpoint files_total (n : node) : Z :=
  match n with
  | Directory _ _ _ children _ _ =>
      fold_right (fun c acc => files_total c + acc) 0 children
  | File _ _ size _ _ => size
  end.

(** The number of file nodes and of directory nodes strictly below a
    node. *)
Fixpoint files_below (n : node) : Z :=
  match n with
  | Directory _ _ _ children _ _ =>
      fold_right
        (fun c acc => (if is_directory c then files_below c else 1) + acc)
        0 children
  | File _ _ _ _ _ => 0
  end.

Fixpoint folders_below (n : node) : Z :=
  match n with
  | Directory _ _ _ children _ _ =>
      fold_right
        (fun c acc => (if is_directory c then folders_below c + 1 else 0) + acc)
        0 children
  | File _ _ _ _ _ => 0
  end.

Definition node_extension (n : node) : pystr :=
  match n with Directory _ _ _ _ _ _ => [] | File _ _ _ e _ => e end.

Definition hidden_name (name : pystr) : bool := startswith name (lit ".").

(** A file system without its hidden entries, at every level. *)
Fixpoint prune_hidden (o : fsobj) : fsobj :=
  match o with
  | FsDir (Some entries) =>
      let fix prune (l : list (pystr * fsobj)) : list (pystr * fsobj) :=
        match l with
        | [] => []
        | (name, obj) :: l' =>
            if hidden_name name then prune l'
            else (name, prune_hidden obj) :: prune l'
        end in
      FsDir (Some (prune entries))
  | _ => o
  end.

(** The entries a pruned listing keeps, and what it keeps of them. *)
Definition visible_entry (e : pystr * fsobj) : bool :=
  negb (hidden_name (fst e)).

Definition prune_entry (e : pystr * fsobj) : pystr * fsobj :=
  (fst e, prune_hidden (snd e)).

Definition prune_hidden_fs (fs : filesystem) : filesystem :=
  {| resolve := resolve fs;
     lookup := fun p => option_map prune_hidden (lookup fs p) |}.






(** The lines [_render_node_text] composes for a tree, in the order it
    appends them, before any of them is cut to the width. *)
Section ComposedLines.
Context {L : StrLower}.

Fixpoint composed_lines (nd : node) (prefix : pystr) (is_last : bool)
    (sc : style_chars) (show_size show_count : bool) {struct nd}
  : list pystr :=
  compose_line nd prefix is_last sc show_size show_count ::
  match nd with
  | Directory _ _ _ children _ _ =>
      let new_prefix :=
        prefix ++ (if is_last then sc_space sc else sc_vertical sc) in
      let fix each (cs : list node) : list pystr :=
        match cs with
        | [] => []
        | child :: cs' =>
            composed_lines child new_prefix
              (match cs' with [] => true | _ => false end)
              sc show_size show_count ++ each cs'
        end in
      each children
  | File _ _ _ _ _ => []
  end.
End ComposedLines.

(** ['path'] of a node. *)
Definition node_path (n : node) : pystr :=
  match n with Directory _ p _ _ _ _ | File _ p _ _ _ => p end.

(** [reach dir rel obj]: from the object [dir], the names [rel], each
    looked up in a listing that can be read, lead to the object
    [obj]. *)
Inductive reach : fsobj -> Path -> fsobj -> Prop :=
| reach_here o : reach o [] o
| reach_entry entries name obj rel o :
    In (name, obj) entries ->
    reach obj rel o ->
    reach (FsDir (Some entries)) (name :: rel) o.

(** The size that the files at and below a directory add to its node
    in a scan that has reached it at depth [d]: nothing past the depth
    limit or where the listing cannot be read; otherwise, of each entry
    that is not skipped as hidden, the size a subdirectory adds at the
    next depth, or the size of a file whose [stat] succeeds and which
    the scan includes and no filter rejects. *)
Fixpoint kept_size {L : StrLower} (opts : scan_options) (d : Z) (o : fsobj)
    {struct o} : Z :=
  match o with
  | FsDir (Some entries) =>
      if depth_reached opts d then 0
      else
        fold_right
          (fun e acc =>
             (if skip_hidden opts (fst e) then 0
              else
                match snd e with
                | FsDir _ => kept_size opts (d + 1) (snd e)
                | FsFile (Some st) =>
                    if include_files opts
                       && negb (extension_rejects opts (fst e))
                       && negb (size_rejects opts (st_size st))
                    then st_size st else 0
                | _ => 0
                end) + acc)
          0 entries
  | _ => 0
  end.

(** What one entry of a listing adds to the size of its directory. *)
Definition entry_kept_size {L : StrLower} (opts : scan_options) (d : Z)
    (e : pystr * fsobj) : Z :=
  if skip_hidden opts (fst e) then 0
  else
    match snd e with
    | FsDir _ => kept_size opts (d + 1) (snd e)
    | FsFile (Some st) =>
        if include_files opts
           && negb (extension_rejects opts (fst e))
           && negb (size_rejects opts (st_size st))
        then st_size st else 0
    | _ => 0
    end.

(** In a scan of [dir] at [path], begun at depth [d], the node [x] at
    depth [j] is the node of a directory that some names lead to from
    [dir], and its size is what the files kept below that directory
    add. *)
Definition sized_as_kept {L : StrLower} (opts : scan_options) (path : Path)
    (d : Z) (dir : fsobj) (j : Z) (x : node) : Prop :=
  exists rel obj,
    reach dir rel obj /\
    d + Z.of_nat (List.length rel) = j /\
    node_path x = path_str (path ++ rel) /\
    node_size x = kept_size opts j obj.

(** The unit [format_size] is specified to choose: one step up for every
    factor of 1024, and no further than [TB]. *)
Definition unit_index (n : Z) : nat :=
  if n <? 1024 then 0%nat
  else if n <? 1024 ^ 2 then 1%nat
  else if n <? 1024 ^ 3 then 2%nat
  else if n <? 1024 ^ 4 then 3%nat
  else 4%nat.

(** [float(n)] divided [i] times by 1024. *)
Definition scaled (n : Z) (i : nat) : Q :=
  Nat.iter i (fun q => (q / inject_Z 1024)%Q) (inject_Z (float_of_int n)).

Section Built.
Context {L : StrLower}.
Variable opts : scan_options.

(** What the loop of [_scan_recursive] can build, rule by rule.
    [built path d s nd s'] reads: starting
    from the object [s], a scan of the directory [path] at depth [d]
    can hold the node [nd] and have brought the object to [s']. *)
Inductive built : Path -> Z -> visualizer -> node -> visualizer -> Prop :=
| built_new path d s :
    built path d s (new_node path) s
| built_directory path d s nd s1 name child s2 :
    built path d s nd s1 ->
    depth_reached opts d = false ->
    skip_hidden opts name = false ->
    built (path_child path name) (d + 1) s1 child s2 ->
    built path d s (add_directory nd child) (incr_folder_count s2)
| built_file path d s nd s1 name st :
    built path d s nd s1 ->
    depth_reached opts d = false ->
    skip_hidden opts name = false ->
    include_files opts = true ->
    extension_rejects opts name = false ->
    size_rejects opts (st_size st) = false ->
    built path d s
          (add_file nd
             (File name (path_str (path_child path name)) (st_size st)
                   (suffix name) (st_mtime st))
             (st_size st))
          (count_file s1 (st_size st)).

(** What holds of a node below the root: its entry was not skipped
    as hidden, and if it is a file it passed every filter. *)
Definition passed (x : node) : Prop :=
  skip_hidden opts (node_name x) = false /\
  (is_directory x = false ->
   include_files opts = true /\
   extension_rejects opts (node_name x) = false /\
   size_rejects opts (node_size x) = false /\
   node_extension x = suffix (node_name x)).

(** A node at a depth where the limit is reached has no children, and
    if it is a directory its aggregates are zero. *)
Definition leaf_at_limit (j : Z) (x : node) : Prop :=
  depth_reached opts j = true ->
  node_children x = [] /\
  (is_directory x = true ->
   node_size x = 0 /\ node_file_count x = 0 /\ node_folder_count x = 0).
End Built.

(** The objects on which no scan has succeeded yet: the fresh object,
    and what a failed scan leaves of such an object. *)
Inductive never_scanned {L : StrLower} : visualizer -> Prop :=
| never_scanned_init : never_scanned init
| never_scanned_failed fs self path opts e self' :
    never_scanned self ->
    scan_directory fs self path opts = Raised e self' ->
    never_scanned self'.

(** The order of two elements under a sort key. *)
Definition key_le {A : Type} (key : A -> sort_key) (x y : A) : Prop :=
  key_leb (key x) (key y) = true.

(* ================================================================== *)
(** ** A small file system to run the code on *)

(** [s.split('/')] without the empty pieces: the components of an
    absolute path that is already normal. *)
Fixpoint split_path (s : pystr) (cur : pystr) : Path :=
  match s with
  | [] => match cur with [] => [] | _ => [cur] end
  | c :: s' =>
      if (c =? 47)%N
      then match cur with [] => split_path s' [] | _ => cur :: split_path s' [] end
      else split_path s' (cur ++ [c])
  end.

Fixpoint assoc_obj (name : pystr) (l : list (pystr * fsobj)) : option fsobj :=
  match l with
  | [] => None
  | (k, o) :: l' => if str_eqb k name then Some o else assoc_obj name l'
  end.

Fixpoint walk (o : fsobj) (p : Path) : option fsobj :=
  match p with
  | [] => Some o
  | name :: p' =>
      match o with
      | FsDir (Some entries) =>
          match assoc_obj name entries with
          | Some o' => walk o' p'
          | None => None
          end
      | _ => None
      end
  end.

(** The file system whose root directory is [root]. *)
Definition fs_of (root : fsobj) : filesystem :=
  {| resolve := fun s => split_path s []; lookup := walk root |}.

Definition file_of_size (n : Z) : fsobj :=
  FsFile (Some {| st_size := n; st_mtime := lit "2024-01-01T00:00:00" |}).

(** [/proj] holds [a.txt] (10 bytes), [sub/b.py] (20 bytes),
    [sub/deep/c.TXT] (7 bytes), the hidden [.git/config] (5 bytes) and
    the hidden file [.env] (3 bytes); [/.cache] is a hidden directory
    holding [x] (1 byte); [/notes.md] is a file. *)
Definition sample_root : fsobj :=
  FsDir (Some
    [(lit "proj", FsDir (Some
        [(lit "a.txt", file_of_size 10);
         (lit ".env", file_of_size 3);
         (lit "sub", FsDir (Some
            [(lit "b.py", file_of_size 20);
             (lit "deep", FsDir (Some [(lit "c.TXT", file_of_size 7)]))]));
         (lit ".git", FsDir (Some [(lit "config", file_of_size 5)]))]));
     (lit ".cache", FsDir (Some [(lit "x", file_of_size 1)]));
     (lit "notes.md", file_of_size 100)]).

Definition sample_fs : filesystem := fs_of sample_root.


Definition depth_limited (k : Z) : scan_options :=
  {| max_depth := Some k; show_hidden := false; include_files := true;
     extensions := None; size_filter := None |}.

Definition directories_only : scan_options :=
  {| max_depth := None; show_hidden := false; include_files := false;
     extensions := None; size_filter := None |}.

Definition sizes_between (lo hi : Z) : scan_options :=
  {| max_depth := None; show_hidden := false; include_files := true;
     extensions := None;
     size_filter := Some (Finite (inject_Z lo), Finite (inject_Z hi)) |}.

Definition show_all : scan_options :=
  {| max_depth := None; show_hidden := true; include_files := true;
     extensions := None; size_filter := None |}.

(** The object a call leaves, whatever the outcome. *)
Definition state_after {A : Type} (r : outcome A) : visualizer :=
  match r with Returned _ s | Raised _ s => s end.

(* ================================================================== *)
(** ** The console front end ([tree_console.py]) *)

(** What [parser.parse_args()] hands to [main]: an option that was not
    given is [None], a flag is a [bool]; the sizes are [float]s, finite
    or [inf] ([nan] and [-inf], which [float] also reads, are outside
    the model). *)
Record console_args := {
  arg_directory : pystr;
  arg_max_depth : option Z;
  arg_hidden : bool;
  arg_no_files : bool;
  arg_extensions : option (list pystr);
  arg_min_size : option bound;
  arg_max_size : option bound;
  arg_style : pystr;
  arg_no_size : bool;
  arg_no_count : bool;
  arg_width : Z
}.

(** The truth value of an optional [float]: [None] and zero are false. *)
Definition float_given (x : option bound) : bool :=
  match x with
  | None => false
  | Some (Finite q) => negb (Qnum q =? 0)
  | Some PosInf => true
  end.

(** [x * 1024 * 1024]; multiplying a double by a power of two is
    exact (short of an overflow to [inf], which takes a number of
    megabytes above 10 ^ 301). *)
Definition megabytes (b : bound) : bound :=
  match b with
  | Finite q => Finite (q * inject_Z 1024 * inject_Z 1024)%Q
  | PosInf => PosInf
  end.

(** [ext if ext.startswith('.') else f'.{ext}'] *)
Definition dotted (ext : pystr) : pystr :=
  if startswith ext (lit ".") then ext else lit "." ++ ext.

(** The dictionary [scan_options] that [main] builds and passes to
    [scan_directory]; a key it leaves out takes the default of the
    method. *)
Definition console_scan_options (args : console_args) : scan_options :=
  {| max_depth := arg_max_depth args;
     show_hidden := arg_hidden args;
     include_files := negb (arg_no_files args);
     extensions :=
       match arg_extensions args with
       | None | Some [] => None
       | Some exts => Some (map dotted exts)
       end;
     size_filter :=
       if float_given (arg_min_size args) || float_given (arg_max_size args)
       then
         Some (match arg_min_size args with
               | Some b => if float_given (Some b) then megabytes b
                           else Finite 0
               | None => Finite 0
               end,
               match arg_max_size args with
               | Some b => if float_given (Some b) then megabytes b
                           else PosInf
               | None => PosInf
               end)
       else None |}.


(** [tree_console.py /proj --extensions py .TXT --max-size 0
    --style ascii] *)
Definition sample_args : console_args :=
  {| arg_directory := lit "/proj"; arg_max_depth := None;
     arg_hidden := false; arg_no_files := false;
     arg_extensions := Some [lit "py"; lit ".TXT"];
     arg_min_size := None; arg_max_size := Some (Finite 0);
     arg_style := lit "ascii"; arg_no_size := false; arg_no_count := false;
     arg_width := 100 |}.

(** The same command line with other values for [--min-size] and
    [--max-size]. *)
Definition with_sizes (args : console_args) (lo hi : option bound)
  : console_args :=
  {| arg_directory := arg_directory args;
     arg_max_depth := arg_max_depth args;
     arg_hidden := arg_hidden args; arg_no_files := arg_no_files args;
     arg_extensions := arg_extensions args;
     arg_min_size := lo; arg_max_size := hi;
     arg_style := arg_style args; arg_no_size := arg_no_size args;
     arg_no_count := arg_no_count args; arg_width := arg_width args |}.

(* ================================================================== *)
(** ** Vocabulary of further properties *)

(** The key under which a node stands among its siblings: the key of
    the entry it was made from. *)
Definition node_key {L : StrLower} (n : node) : sort_key :=
  (negb (is_directory n), lower (node_name n)).

(** Every directory node of the tree has its children in key order. *)
Definition ordered {L : StrLower} (n : node) : Prop :=
  Forall (fun x => StronglySorted (key_le node_key) (node_children x))
         (nodes n).

(** A child is below an entry when its key is at most the entry's. *)
Definition below {L : StrLower} (item : pystr * fsobj) (c : node) : Prop :=
  key_leb (node_key c) (item_key item) = true.

(** A line is the line of a node when it is what [_render_node_text]
    composes for that node under some prefix, as last sibling or not. *)
Definition line_of {L : StrLower} (sc : style_chars)
    (show_size show_count : bool) (x : node) (line : pystr) : Prop :=
  exists prefix is_last,
    line = compose_line x prefix is_last sc show_size show_count.

(** The readable files at or below an object, their total size, and the
    directories strictly below it. *)
Fixpoint fs_files (o : fsobj) : Z :=
  match o with
  | FsFile (Some _) => 1
  | FsDir (Some entries) =>
      fold_right (fun e acc => fs_files (snd e) + acc) 0 entries
  | _ => 0
  end.

Fixpoint fs_size (o : fsobj) : Z :=
  match o with
  | FsFile (Some st) => st_size st
  | FsDir (Some entries) =>
      fold_right (fun e acc => fs_size (snd e) + acc) 0 entries
  | _ => 0
  end.

Fixpoint fs_dirs (o : fsobj) : Z :=
  match o with
  | FsDir (Some entries) =>
      fold_right
        (fun e acc =>
           (if is_dir (snd e) then fs_dirs (snd e) + 1 else 0) + acc)
        0 entries
  | _ => 0
  end.

(** What an entry adds to the three aggregates of its directory. *)
Definition entry_files (e : pystr * fsobj) : Z := fs_files (snd e).

Definition entry_size (e : pystr * fsobj) : Z := fs_size (snd e).

Definition entry_dirs (e : pystr * fsobj) : Z :=
  if is_dir (snd e) then fs_dirs (snd e) + 1 else 0.

(** A node that holds the counts of an object of the file system. *)
Definition counts_fs (o : fsobj) (n : node) : Prop :=
  node_file_count n = fs_files o /\
  node_folder_count n = fs_dirs o /\
  node_size n = fs_size o.

(** No name at or below the object is skipped as hidden. *)
Fixpoint names_shown (opts : scan_options) (o : fsobj) : bool :=
  match o with
  | FsDir (Some entries) =>
      let fix each (l : list (pystr * fsobj)) : bool :=
        match l with
        | [] => true
        | (name, obj) :: l' =>
            negb (skip_hidden opts name) && names_shown opts obj && each l'
        end in
      each entries
  | _ => true
  end.

(** What of the file system a scan with these options looks at. *)
Definition shown_part (opts : scan_options) (o : fsobj) : fsobj :=
  if show_hidden opts then o else prune_hidden o.

(** A file system without what cannot be read: files whose [stat]
    fails and objects that are neither file nor directory are left
    out, a directory that cannot be listed is empty. *)
Fixpoint readable_part (o : fsobj) : fsobj :=
  match o with
  | FsDir (Some entries) =>
      let fix keep (l : list (pystr * fsobj)) : list (pystr * fsobj) :=
        match l with
        | [] => []
        | (name, obj) :: l' =>
            match obj with
            | FsFile None | FsOther => keep l'
            | _ => (name, readable_part obj) :: keep l'
            end
        end in
      FsDir (Some (keep entries))
  | FsDir None => FsDir (Some [])
  | _ => o
  end.

Definition readable_entry (e : pystr * fsobj) : bool :=
  match snd e with
  | FsFile None | FsOther => false
  | _ => true
  end.

Definition readable_image (e : pystr * fsobj) : pystr * fsobj :=
  (fst e, readable_part (snd e)).

Definition readable_fs (fs : filesystem) : filesystem :=
  {| resolve := resolve fs;
     lookup := fun p => option_map readable_part (lookup fs p) |}.

(** The number of levels of directories at and below an object: 0 for
    what is not a directory, 1 for a directory without subdirectory. *)
Fixpoint dir_levels (o : fsobj) : Z :=
  match o with
  | FsDir (Some entries) =>
      1 + fold_right (fun e acc => Z.max (dir_levels (snd e)) acc) 0 entries
  | FsDir None => 1
  | _ => 0
  end.

Definition with_max_depth (opts : scan_options) (m : option Z)
  : scan_options :=
  {| max_depth := m; show_hidden := show_hidden opts;
     include_files := include_files opts; extensions := extensions opts;
     size_filter := size_filter opts |}.


(** The node [x] of a scan of [dir] at [path] stands for an entry of
    the file system: some names lead from [dir] to an object of the
    kind of the node, the node holds the path and the final name of
    that object, and a file node holds the size, the time and the
    suffix of the file. *)
Definition stands_for (path : Path) (dir : fsobj) (x : node) : Prop :=
  exists rel obj,
    reach dir rel obj /\
    node_path x = path_str (path ++ rel) /\
    node_name x = path_name (path ++ rel) /\
    match x with
    | Directory _ _ _ _ _ _ => is_dir obj = true
    | File name _ size extension modified =>
        exists st, obj = FsFile (Some st) /\ size = st_size st /\
                   modified = st_mtime st /\ extension = suffix name
    end.

(** The state of the loop of a scan of [dir] at [path]: a directory
    node for [path] whose children stand, with all below them, for
    entries of [dir]. *)
Definition stands_so_far (path : Path) (dir : fsobj) (nd : node) : Prop :=
  is_directory nd = true /\
  node_path nd = path_str path /\ node_name nd = path_name path /\
  forall c x, In c (node_children nd) -> In x (nodes c) ->
              stands_for path dir x.

(** The file system with every listing in the order of the scan: each
    listing sorted by the key of [items.sort], at every level. *)
Fixpoint sorted_listings {L : StrLower} (o : fsobj) : fsobj :=
  match o with
  | FsDir (Some entries) =>
      let fix each (l : list (pystr * fsobj)) : list (pystr * fsobj) :=
        match l with
        | [] => []
        | (name, obj) :: l' => (name, sorted_listings obj) :: each l'
        end in
      FsDir (Some (sort_by item_key (each entries)))
  | _ => o
  end.

Definition sorted_image {L : StrLower} (e : pystr * fsobj) : pystr * fsobj :=
  (fst e, sorted_listings (snd e)).

(** [sample_root] with its listings in another order, at three
    levels. *)
Definition sample_root_rearranged : fsobj :=
  FsDir (Some
    [(lit "notes.md", file_of_size 100);
     (lit "proj", FsDir (Some
        [(lit ".git", FsDir (Some [(lit "config", file_of_size 5)]));
         (lit "sub", FsDir (Some
            [(lit "deep", FsDir (Some [(lit "c.TXT", file_of_size 7)]));
             (lit "b.py", file_of_size 20)]));
         (lit ".env", file_of_size 3);
         (lit "a.txt", file_of_size 10)]));
     (lit ".cache", FsDir (Some [(lit "x", file_of_size 1)]))]).


(* ================================================================== *)
(** * Properties *)

(** ** The order of the sort keys *)

Lemma str_leb_refl (a : pystr) : str_leb a a = true.
Proof.
  induction a as [|c a IH]; simpl; [reflexivity|].
  now rewrite N.ltb_irrefl.
Qed.

Lemma str_leb_total (a b : pystr) : str_leb a b = false -> str_leb b a = true.
Proof.
  revert b; induction a as [|c a IH]; intros [|d b]; simpl; try easy.
  destruct (N.ltb_spec c d), (N.ltb_spec d c); try easy; try lia.
  apply IH.
Qed.

Lemma str_leb_trans (a b c : pystr) :
  str_leb a b = true -> str_leb b c = true -> str_leb a c = true.
Proof.
  revert b c; induction a as [|x a IH]; intros [|y b] [|z c]; simpl; try easy.
  destruct (N.ltb_spec x y), (N.ltb_spec y x), (N.ltb_spec y z),
    (N.ltb_spec z y), (N.ltb_spec x z), (N.ltb_spec z x);
    try easy; try lia.
  apply IH.
Qed.

Lemma key_leb_total (a b : sort_key) : key_leb a b = false -> key_leb b a = true.
Proof.
  destruct a as [[] a], b as [[] b]; unfold key_leb; simpl;
    try easy; apply str_leb_total.
Qed.

Lemma key_leb_trans (a b c : sort_key) :
  key_leb a b = true -> key_leb b c = true -> key_leb a c = true.
Proof.
  destruct a as [[] a], b as [[] b], c as [[] c]; unfold key_leb; simpl;
    try easy; apply str_leb_trans.
Qed.

(** ** The stable sort *)

Section SortFacts.
Context {A : Type} (key : A -> sort_key).

Lemma insert_by_In (x y : A) (l : list A) :
  In y (insert_by key x l) <-> y = x \/ In y l.
Proof.
  induction l as [|z l IH]; simpl.
  - intuition.
  - destruct (key_leb (key x) (key z)); simpl; [intuition|].
    rewrite IH. intuition.
Qed.

Lemma sort_by_In (y : A) (l : list A) : In y (sort_by key l) <-> In y l.
Proof.
  induction l as [|x l IH]; simpl; [tauto|].
  rewrite insert_by_In, IH. intuition.
Qed.

Lemma sort_by_Forall (P : A -> Prop) (l : list A) :
  Forall P l -> Forall P (sort_by key l).
Proof.
  rewrite !Forall_forall. intros H y Hy. apply H. now apply sort_by_In.
Qed.

Lemma insert_by_below (x : A) (l : list A) :
  Forall (key_le key x) l -> insert_by key x l = x :: l.
Proof.
  destruct l as [|y l]; [reflexivity|].
  intros H. inversion_clear H as [|? ? Hy _]. simpl.
  unfold key_le in Hy. now rewrite Hy.
Qed.

Lemma insert_by_sorted (x : A) (l : list A) :
  StronglySorted (key_le key) l -> StronglySorted (key_le key) (insert_by key x l).
Proof.
  induction 1 as [|y l Hs IH Hall]; simpl.
  - repeat constructor.
  - destruct (key_leb (key x) (key y)) eqn:E.
    + constructor; [now constructor|].
      constructor; [exact E|].
      eapply Forall_impl; [|exact Hall].
      intros z Hz. eapply key_leb_trans; eassumption.
    + constructor; [exact IH|].
      apply Forall_forall. intros z Hz.
      apply insert_by_In in Hz. destruct Hz as [->|Hz].
      * now apply key_leb_total.
      * rewrite Forall_forall in Hall. now apply Hall.
Qed.

Lemma sort_by_sorted (l : list A) : StronglySorted (key_le key) (sort_by key l).
Proof.
  induction l as [|x l IH]; simpl; [constructor|].
  now apply insert_by_sorted.
Qed.

(** Sorting and then dropping elements is sorting what is kept. *)
Lemma insert_by_filter (p : A -> bool) (x : A) (l : list A) :
  StronglySorted (key_le key) l ->
  filter p (insert_by key x l) =
  if p x then insert_by key x (filter p l) else filter p l.
Proof.
  induction 1 as [|y l Hs IH Hall]; simpl.
  - now destruct (p x).
  - destruct (key_leb (key x) (key y)) eqn:E; simpl.
    + destruct (p x) eqn:Px; [|reflexivity].
      symmetry. apply insert_by_below.
      assert (Hx : Forall (key_le key x) (y :: l)).
      { constructor; [exact E|].
        eapply Forall_impl; [|exact Hall].
        intros z Hz. eapply key_leb_trans; eassumption. }
      change (Forall (key_le key x) (filter p (y :: l))).
      rewrite Forall_forall in *. intros z Hz.
      apply filter_In in Hz. now apply Hx.
    + rewrite IH. destruct (p y), (p x); simpl; try reflexivity.
      now rewrite E.
Qed.

Lemma sort_by_filter (p : A -> bool) (l : list A) :
  sort_by key (filter p l) = filter p (sort_by key l).
Proof.
  induction l as [|x l IH]; simpl; [reflexivity|].
  rewrite insert_by_filter by apply sort_by_sorted.
  destruct (p x); simpl; now rewrite IH.
Qed.
End SortFacts.

(** Sorting commutes with a map that keeps the keys. *)
Lemma sort_by_map {A B : Type} (keyA : A -> sort_key) (keyB : B -> sort_key)
    (g : A -> B) (l : list A) :
  (forall x, keyB (g x) = keyA x) ->
  sort_by keyB (map g l) = map g (sort_by keyA l).
Proof.
  intros Hk. induction l as [|x l IH]; simpl; [reflexivity|].
  rewrite IH. generalize (sort_by keyA l) as s.
  induction s as [|y s IHs]; simpl; [reflexivity|].
  rewrite !Hk. destruct (key_leb (keyA x) (keyA y)); simpl; [reflexivity|].
  now rewrite IHs.
Qed.

(** ** Induction on the file-system tree *)

Lemma fsobj_tree_ind (P : fsobj -> Prop) :
  (forall st, P (FsFile st)) ->
  P FsOther ->
  P (FsDir None) ->
  (forall entries,
      Forall (fun e => P (snd e)) entries -> P (FsDir (Some entries))) ->
  forall o, P o.
Proof.
  intros Hfile Hother Hnone Hdir.
  fix IH 1. intros [st|[entries|]|].
  - apply Hfile.
  - apply Hdir. induction entries as [|[name obj] l IHl]; constructor.
    + apply IH.
    + exact IHl.
  - apply Hnone.
  - apply Hother.
Qed.

Section ScanFacts.
Context {L : StrLower}.
Variable opts : scan_options.

Lemma fold_left_map_in {A B C : Type} (f : C -> B -> C) (g : A -> B)
    (l : list A) (c : C) :
  fold_left f (map g l) c = fold_left (fun a x => f a (g x)) l c.
Proof.
  revert c; induction l as [|x l IH]; intros c; simpl; [reflexivity|].
  apply IH.
Qed.

(** [_scan_recursive] as the source has it: the depth test, then the
    loop over the sorted entries with the recursive call inside. *)
Lemma _scan_recursive_eq (dir : fsobj) (path : Path) (current_depth : Z)
    (self : visualizer) :
  _scan_recursive opts dir path current_depth self =
  if depth_reached opts current_depth then (new_node path, self)
  else
    match dir with
    | FsDir (Some entries) =>
        scan_items opts path current_depth (_scan_recursive opts)
                   (sort_by item_key entries) (new_node path, self)
    | _ => (new_node path, self)
    end.
Proof.
  destruct dir as [st|[entries|]|]; simpl;
    destruct (depth_reached opts current_depth); try reflexivity.
  set (g := fun e : pystr * fsobj => (e, _scan_recursive opts (snd e))).
  match goal with
  | |- context [sort_by _ (?b entries)] =>
      assert (Hb : b entries = map g entries)
  end.
  { induction entries as [|[name obj] l IH]; simpl; [reflexivity|].
    now rewrite IH. }
  rewrite Hb.
  rewrite (sort_by_map item_key (fun x => item_key (fst x)) g)
    by reflexivity.
  unfold scan_items. now rewrite fold_left_map_in.
Qed.

(** The loop, one entry at a time. *)
Lemma scan_items_cons path d rec item items acc :
  scan_items opts path d rec (item :: items) acc =
  scan_items opts path d rec items
             (scan_item opts path d (rec (snd item)) item acc).
Proof. reflexivity. Qed.

Lemma scan_item_built path d s rec name obj nd s1 :
  depth_reached opts d = false ->
  (forall p' d' s', built opts p' d' s' (fst (rec p' d' s')) (snd (rec p' d' s'))) ->
  built opts path d s nd s1 ->
  built opts path d s
        (fst (scan_item opts path d rec (name, obj) (nd, s1)))
        (snd (scan_item opts path d rec (name, obj) (nd, s1))).
Proof.
  intros Hd Hrec Hb. unfold scan_item.
  destruct (skip_hidden opts name) eqn:Hh; [exact Hb|].
  destruct (is_dir obj).
  - specialize (Hrec (path_child path name) (d + 1) s1).
    destruct (rec (path_child path name) (d + 1) s1) as [child s2].
    simpl in *. eapply built_directory; eassumption.
  - destruct (include_files opts) eqn:Hi; simpl; [|exact Hb].
    destruct obj as [[st|]|e|]; simpl; try exact Hb.
    destruct (extension_rejects opts name) eqn:He; [exact Hb|].
    destruct (size_rejects opts (st_size st)) eqn:Hs; [exact Hb|].
    simpl. now apply built_file.
Qed.

Lemma scan_items_built path d s rec items : forall nd s1,
  depth_reached opts d = false ->
  Forall (fun e => forall p' d' s',
              built opts p' d' s' (fst (rec (snd e) p' d' s'))
                    (snd (rec (snd e) p' d' s'))) items ->
  built opts path d s nd s1 ->
  built opts path d s
        (fst (scan_items opts path d rec items (nd, s1)))
        (snd (scan_items opts path d rec items (nd, s1))).
Proof.
  induction items as [|[name obj] items IH]; intros nd s1 Hd Hall Hb.
  - exact Hb.
  - rewrite scan_items_cons. inversion_clear Hall as [|? ? H1 H2].
    cbn [snd] in H1 |- *.
    pose proof (scan_item_built path d s (rec obj) name obj nd s1 Hd H1 Hb)
      as Hstep.
    destruct (scan_item opts path d (rec obj) (name, obj) (nd, s1))
      as [nd' s1'].
    now apply IH.
Qed.

(** Every result of [_scan_recursive] is built by the three rules. *)
Lemma _scan_recursive_built (dir : fsobj) : forall path d s,
  built opts path d s (fst (_scan_recursive opts dir path d s))
        (snd (_scan_recursive opts dir path d s)).
Proof.
  induction dir as [st| | |entries IH] using fsobj_tree_ind;
    intros path d s; rewrite _scan_recursive_eq;
    destruct (depth_reached opts d) eqn:Hd; try apply built_new.
  apply scan_items_built; [exact Hd| |apply built_new].
  apply sort_by_Forall. exact IH.
Qed.
End ScanFacts.

(** ** Induction on tree nodes *)

Lemma node_tree_ind (P : node -> Prop) :
  (forall name path size ext modified, P (File name path size ext modified)) ->
  (forall name path size children fc dc,
      Forall P children -> P (Directory name path size children fc dc)) ->
  forall n, P n.
Proof.
  intros Hfile Hdir. fix IH 1. intros [name path size children fc dc|].
  - apply Hdir. induction children as [|c cs IHcs]; constructor.
    + apply IH.
    + exact IHcs.
  - apply Hfile.
Qed.

Lemma sum_sizes_app (l1 l2 : list node) :
  sum_sizes (l1 ++ l2) = sum_sizes l1 + sum_sizes l2.
Proof.
  unfold sum_sizes. induction l1 as [|c l1 IH]; simpl; [reflexivity|].
  rewrite IH. lia.
Qed.

(** A tree whose directories each hold the sum of their children holds,
    at the root, the total of its files. *)
Lemma local_sums_files_total (n : node) :
  (forall x, In x (nodes n) -> is_directory x = true ->
             node_size x = sum_sizes (node_children x)) ->
  node_size n = files_total n.
Proof.
  induction n as [name path size ext modified
                 |name path size children fc dc IH] using node_tree_ind;
    intros H; [reflexivity|].
  rewrite (H _ (or_introl eq_refl) eq_refl). simpl.
  assert (Hc : forall c, In c children ->
               forall x, In x (nodes c) -> is_directory x = true ->
                         node_size x = sum_sizes (node_children x)).
  { intros c Hc x Hx. apply H. right. apply in_flat_map. eauto. }
  clear H. unfold sum_sizes.
  induction children as [|c cs IHcs]; simpl; [reflexivity|].
  inversion_clear IH as [|? ? Hhead Htail].
  rewrite Hhead by (apply Hc; now left).
  rewrite IHcs; [reflexivity|exact Htail|].
  intros c' Hc'. apply Hc. now right.
Qed.

Section BuiltFacts.
Context {L : StrLower}.
Variable opts : scan_options.

(** The node under construction is the directory node of [path]. *)
Lemma built_is_directory path d s nd s' :
  built opts path d s nd s' ->
  exists size children fc dc,
    nd = Directory (path_name path) (path_str path) size children fc dc.
Proof.
  induction 1 as [path d s
                 |path d s nd s1 name child s2 _ IH1 _ _ _ _
                 |path d s nd s1 name st _ IH1 _ _ _ _ _].
  - unfold new_node; eauto.
  - destruct IH1 as (sz & cs & fc & dc & ->). simpl; eauto.
  - destruct IH1 as (sz & cs & fc & dc & ->). simpl; eauto.
Qed.

(** The scan adds to the counters of the object exactly the
    aggregates of the node it returns, and assigns nothing else. *)
Lemma built_counters path d s nd s' :
  built opts path d s nd s' ->
  file_count s' = file_count s + node_file_count nd /\
  folder_count s' = folder_count s + node_folder_count nd /\
  total_size s' = total_size s + node_size nd /\
  tree_data s' = tree_data s /\ root_path s' = root_path s.
Proof.
  induction 1 as [path d s
                 |path d s nd s1 name child s2 Hb IH1 _ _ Hc IH2
                 |path d s nd s1 name st Hb IH1 _ _ _ _ _].
  - simpl. repeat split; lia.
  - destruct (built_is_directory _ _ _ _ _ Hb) as (sz & cs & fc & dc & ->).
    simpl in *. repeat split; try lia.
    + destruct IH2 as (_ & _ & _ & -> & _). tauto.
    + destruct IH2 as (_ & _ & _ & _ & ->). tauto.
  - destruct (built_is_directory _ _ _ _ _ Hb) as (sz & cs & fc & dc & ->).
    simpl in *. repeat split; try lia; tauto.
Qed.

Lemma nodes_directory name path size children fc dc x :
  In x (nodes (Directory name path size children fc dc)) <->
  x = Directory name path size children fc dc \/
  exists c, In c children /\ In x (nodes c).
Proof.
  simpl. rewrite in_flat_map. intuition.
Qed.

Lemma files_below_app name path size fc dc name' path' size' fc' dc' cs c :
  files_below (Directory name path size (cs ++ [c]) fc dc) =
  files_below (Directory name' path' size' cs fc' dc') +
  (if is_directory c then files_below c else 1).
Proof.
  simpl. induction cs as [|c0 cs IH]; simpl; [lia|]. rewrite IH. lia.
Qed.

Lemma folders_below_app name path size fc dc name' path' size' fc' dc' cs c :
  folders_below (Directory name path size (cs ++ [c]) fc dc) =
  folders_below (Directory name' path' size' cs fc' dc') +
  (if is_directory c then folders_below c + 1 else 0).
Proof.
  simpl. induction cs as [|c0 cs IH]; simpl; [lia|]. rewrite IH. lia.
Qed.

(** The counts a directory node holds are the numbers of file nodes
    and of directory nodes below it. *)
Lemma built_counts path d s nd s' :
  built opts path d s nd s' ->
  node_file_count nd = files_below nd /\
  node_folder_count nd = folders_below nd.
Proof.
  induction 1 as [path d s
                 |path d s nd s1 name child s2 Hb IH1 _ _ Hc IH2
                 |path d s nd s1 name st Hb IH1 _ _ _ _ _].
  - split; reflexivity.
  - destruct (built_is_directory _ _ _ _ _ Hb) as (sz & cs & fc & dc & ->).
    destruct (built_is_directory _ _ _ _ _ Hc)
      as (sz' & cs' & fc' & dc' & ->).
    unfold add_directory.
    rewrite (files_below_app _ _ _ _ _ (path_name path) (path_str path)
                             sz fc dc).
    rewrite (folders_below_app _ _ _ _ _ (path_name path) (path_str path)
                               sz fc dc).
    cbn [node_file_count node_folder_count is_directory] in *.
    destruct IH1, IH2. split; lia.
  - destruct (built_is_directory _ _ _ _ _ Hb) as (sz & cs & fc & dc & ->).
    unfold add_file.
    rewrite (files_below_app _ _ _ _ _ (path_name path) (path_str path)
                             sz fc dc).
    rewrite (folders_below_app _ _ _ _ _ (path_name path) (path_str path)
                               sz fc dc).
    cbn [node_file_count node_folder_count is_directory] in *.
    destruct IH1. split; lia.
Qed.

(** Every directory node holds the sum of the sizes of its children. *)
Lemma built_local_sums path d s nd s' :
  built opts path d s nd s' ->
  forall x, In x (nodes nd) -> is_directory x = true ->
            node_size x = sum_sizes (node_children x).
Proof.
  induction 1 as [path d s
                 |path d s nd s1 name child s2 Hb IH1 _ _ Hc IH2
                 |path d s nd s1 name st Hb IH1 _ _ _ _ _];
    intros x Hx Hdir.
  - destruct Hx as [<-|[]]. reflexivity.
  - destruct (built_is_directory _ _ _ _ _ Hb) as (sz & cs & fc & dc & ->).
    simpl add_directory in Hx. apply nodes_directory in Hx.
    destruct Hx as [->|(c & Hin & Hx)].
    + pose proof (IH1 _ (or_introl eq_refl) eq_refl) as E.
      cbn [node_size node_children] in E |- *.
      rewrite sum_sizes_app, <- E. simpl. lia.
    + apply in_app_or in Hin. destruct Hin as [Hin|[<-|[]]].
      * apply IH1; [|exact Hdir]. apply nodes_directory. eauto.
      * now apply IH2.
  - destruct (built_is_directory _ _ _ _ _ Hb) as (sz & cs & fc & dc & ->).
    simpl add_file in Hx. apply nodes_directory in Hx.
    destruct Hx as [->|(c & Hin & Hx)].
    + pose proof (IH1 _ (or_introl eq_refl) eq_refl) as E.
      cbn [node_size node_children] in E |- *.
      rewrite sum_sizes_app, <- E. simpl. lia.
    + apply in_app_or in Hin. destruct Hin as [Hin|[<-|[]]].
      * apply IH1; [|exact Hdir]. apply nodes_directory. eauto.
      * destruct Hx as [<-|[]]. discriminate.
Qed.

Lemma descendants_directory name path size children fc dc x :
  In x (descendants (Directory name path size children fc dc)) <->
  exists c, In c children /\ In x (nodes c).
Proof. unfold descendants. simpl. apply in_flat_map. Qed.

Lemma nodes_root_or_descendant (n x : node) :
  In x (nodes n) <-> x = n \/ In x (descendants n).
Proof.
  destruct n; unfold descendants; simpl; intuition.
Qed.

Lemma built_passed path d s nd s' :
  built opts path d s nd s' ->
  forall x, In x (descendants nd) -> passed opts x.
Proof.
  induction 1 as [path d s
                 |path d s nd s1 name child s2 Hb IH1 _ Hh Hc IH2
                 |path d s nd s1 name st Hb IH1 _ Hh Hi He Hs];
    intros x Hx.
  - destruct Hx.
  - destruct (built_is_directory _ _ _ _ _ Hb) as (sz & cs & fc & dc & ->).
    simpl add_directory in Hx. apply descendants_directory in Hx.
    destruct Hx as (c & Hin & Hx).
    apply in_app_or in Hin. destruct Hin as [Hin|[<-|[]]].
    + apply IH1. apply descendants_directory. eauto.
    + apply nodes_root_or_descendant in Hx. destruct Hx as [->|Hx].
      * destruct (built_is_directory _ _ _ _ _ Hc)
          as (sz' & cs' & fc' & dc' & ->).
        split; simpl; [|discriminate].
        unfold path_child, path_name. now rewrite last_last.
      * now apply IH2.
  - destruct (built_is_directory _ _ _ _ _ Hb) as (sz & cs & fc & dc & ->).
    simpl add_file in Hx. apply descendants_directory in Hx.
    destruct Hx as (c & Hin & Hx).
    apply in_app_or in Hin. destruct Hin as [Hin|[<-|[]]].
    + apply IH1. apply descendants_directory. eauto.
    + destruct Hx as [<-|[]]. split; simpl; auto.
Qed.
End BuiltFacts.

Section DepthFacts.
Context {L : StrLower}.
Variable opts : scan_options.

(** At a depth where the limit is reached, nothing but the fresh node
    can be built. *)
Lemma built_at_limit path d s nd s' :
  built opts path d s nd s' ->
  depth_reached opts d = true ->
  nd = new_node path /\ s' = s.
Proof.
  destruct 1; intros Hd; [auto|congruence|congruence].
Qed.

Lemma nodes_at_directory depth name path size children fc dc j x :
  In (j, x) (nodes_at depth (Directory name path size children fc dc)) <->
  (j = depth /\ x = Directory name path size children fc dc) \/
  exists c, In c children /\ In (j, x) (nodes_at (depth + 1) c).
Proof.
  simpl. rewrite in_flat_map. split.
  - intros [H|H]; [left; inversion H; auto|now right].
  - intros [[-> ->]|H]; [now left|now right].
Qed.

Lemma built_depth path d s nd s' :
  built opts path d s nd s' ->
  forall j x, In (j, x) (nodes_at d nd) -> d <= j /\ leaf_at_limit opts j x.
Proof.
  induction 1 as [path d s
                 |path d s nd s1 name child s2 Hb IH1 Hd Hh Hc IH2
                 |path d s nd s1 name st Hb IH1 Hd Hh Hi He Hs];
    intros j x Hx.
  - destruct Hx as [E|[]]. inversion E; subst.
    split; [lia|]. intros _. simpl. auto.
  - destruct (built_is_directory _ _ _ _ _ _ Hb) as (sz & cs & fc & dc & ->).
    simpl add_directory in Hx. apply nodes_at_directory in Hx.
    destruct Hx as [[-> ->]|(c & Hin & Hx)].
    + split; [lia|]. intros Hj. congruence.
    + apply in_app_or in Hin. destruct Hin as [Hin|[<-|[]]].
      * apply IH1. apply nodes_at_directory. eauto.
      * destruct (IH2 _ _ Hx) as [Hle Hleaf]. split; [lia|exact Hleaf].
  - destruct (built_is_directory _ _ _ _ _ _ Hb) as (sz & cs & fc & dc & ->).
    simpl add_file in Hx. apply nodes_at_directory in Hx.
    destruct Hx as [[-> ->]|(c & Hin & Hx)].
    + split; [lia|]. intros Hj. congruence.
    + apply in_app_or in Hin. destruct Hin as [Hin|[<-|[]]].
      * apply IH1. apply nodes_at_directory. eauto.
      * destruct Hx as [E|[]]. inversion E; subst.
        split; [lia|]. intros _. split; [reflexivity|discriminate].
Qed.
End DepthFacts.

(** ** Two scans compared *)

Section PruneFacts.
Context {L : StrLower}.
Variable opts : scan_options.
Hypothesis hidden_off : show_hidden opts = false.

Lemma prune_hidden_dir (entries : list (pystr * fsobj)) :
  prune_hidden (FsDir (Some entries)) =
  FsDir (Some (map prune_entry (filter visible_entry entries))).
Proof.
  simpl. do 2 f_equal.
  induction entries as [|[name obj] l IH]; simpl; [reflexivity|].
  unfold visible_entry at 1. simpl.
  destruct (hidden_name name); simpl; [exact IH|].
  now rewrite IH.
Qed.

Lemma is_file_prune (o : fsobj) : is_file (prune_hidden o) = is_file o.
Proof. destruct o as [st|[entries|]|]; reflexivity. Qed.

Lemma is_dir_prune (o : fsobj) : is_dir (prune_hidden o) = is_dir o.
Proof. destruct o as [st|[entries|]|]; reflexivity. Qed.

Lemma item_key_prune (e : pystr * fsobj) :
  item_key (prune_entry e) = item_key e.
Proof. unfold item_key, prune_entry. simpl. now rewrite is_file_prune. Qed.

Lemma skip_hidden_is_hidden (name : pystr) :
  skip_hidden opts name = hidden_name name.
Proof. unfold skip_hidden, hidden_name. now rewrite hidden_off. Qed.

Lemma scan_items_pruned path d rec (items : list (pystr * fsobj)) :
  Forall (fun e => forall p' d' s',
              rec (prune_hidden (snd e)) p' d' s' = rec (snd e) p' d' s')
         items ->
  forall acc,
    scan_items opts path d rec (map prune_entry (filter visible_entry items))
               acc =
    scan_items opts path d rec items acc.
Proof.
  induction 1 as [|[name obj] items Hrec _ IH]; intros [nd s]; [reflexivity|].
  rewrite scan_items_cons. simpl filter. unfold visible_entry at 1.
  cbn [fst snd] in *.
  assert (Hskip := skip_hidden_is_hidden name).
  destruct (hidden_name name) eqn:Hn; simpl negb; cbv iota.
  - rewrite IH. unfold scan_item. now rewrite Hskip.
  - simpl map. rewrite scan_items_cons, IH. f_equal.
    unfold prune_entry. cbn [fst snd].
    unfold scan_item. rewrite Hskip, is_dir_prune, is_file_prune, Hrec.
    destruct obj as [st|[entries|]|]; reflexivity.
Qed.

(** With hidden entries not shown, a scan does not tell a file system
    from the same one without any of its hidden entries. *)
Lemma _scan_recursive_pruned (dir : fsobj) : forall path d s,
  _scan_recursive opts (prune_hidden dir) path d s =
  _scan_recursive opts dir path d s.
Proof.
  induction dir as [st| | |entries IH] using fsobj_tree_ind;
    intros path d s; try reflexivity.
  rewrite prune_hidden_dir, !_scan_recursive_eq.
  destruct (depth_reached opts d); [reflexivity|].
  rewrite (sort_by_map item_key item_key prune_entry)
    by apply item_key_prune.
  rewrite sort_by_filter.
  apply scan_items_pruned. apply sort_by_Forall. exact IH.
Qed.
End PruneFacts.



Section ExtensionFacts.
Context {L : StrLower}.
Variable opts : scan_options.
Variable exts : option (list pystr).









End ExtensionFacts.

(** ** The text renderer *)

Lemma len_app (a b : pystr) : len (a ++ b) = len a + len b.
Proof. unfold len. rewrite length_app. lia. Qed.

Lemma endswith_app (a b : pystr) : endswith (a ++ b) b = true.
Proof.
  unfold endswith. rewrite rev_app_distr.
  generalize (rev a) as t. induction (rev b) as [|c r IH]; intros t; simpl.
  - now destruct t.
  - now rewrite N.eqb_refl, IH.
Qed.

(** A line that fits is kept. *)
Lemma truncate_fits (max_width : Z) (line : pystr) :
  len line <= max_width -> truncate max_width line = line.
Proof.
  intros H. unfold truncate.
  destruct (Z.ltb_spec max_width (len line)); [lia|reflexivity].
Qed.

(** A line that does not fit is cut to [max_width - 3] characters and
    three dots, when the width leaves room for the dots. *)
Lemma truncate_cuts (max_width : Z) (line : pystr) :
  3 <= max_width -> max_width < len line ->
  truncate max_width line =
    firstn (Z.to_nat (max_width - 3)) line ++ lit "..." /\
  len (truncate max_width line) = max_width /\
  endswith (truncate max_width line) (lit "...") = true.
Proof.
  intros H3 Hlong. unfold truncate, slice_to.
  destruct (Z.ltb_spec max_width (len line)); [|lia].
  destruct (Z.ltb_spec (max_width - 3) 0); [lia|].
  split; [reflexivity|]. split; [|apply endswith_app].
  rewrite len_app. unfold len in *. rewrite length_firstn.
  change (List.length (lit "...")) with 3%nat. lia.
Qed.

Lemma truncate_bounded (max_width : Z) (line : pystr) :
  3 <= max_width -> len (truncate max_width line) <= max_width.
Proof.
  intros H3. destruct (Z.le_gt_cases (len line) max_width) as [H|H].
  - now rewrite truncate_fits.
  - destruct (truncate_cuts max_width line H3) as (_ & -> & _); lia.
Qed.

Section RenderFacts.
Context {L : StrLower}.
Variables (show_size show_count : bool) (max_width : Z).

(** [_render_node_text] appends, in order, the composed line of each
    node of the tree cut to the width; the index test that finds the
    last child agrees with the position in the list. *)
Lemma _render_node_text_lines (sc : style_chars) (nd : node) :
  forall prefix is_last lines,
  _render_node_text nd prefix is_last sc show_size show_count max_width
                    lines =
  lines ++
  map (truncate max_width)
      (composed_lines nd prefix is_last sc show_size show_count).
Proof.
  induction nd as [name path size ext modified
                  |name path size children fc dc IH] using node_tree_ind;
    intros prefix is_last lines.
  - reflexivity.
  - cbn [_render_node_text composed_lines map].
    set (new_prefix :=
           prefix ++ (if is_last then sc_space sc else sc_vertical sc)).
    set (n := Z.of_nat (List.length children)).
    set (line := truncate max_width
                   (compose_line (Directory name path size children fc dc)
                                 prefix is_last sc show_size show_count)).
    assert (Hloop : forall cs i acc,
               Forall (fun c => forall prefix is_last lines,
                 _render_node_text c prefix is_last sc show_size show_count
                                   max_width lines =
                 lines ++ map (truncate max_width)
                   (composed_lines c prefix is_last sc show_size show_count))
                 cs ->
               n = i + Z.of_nat (List.length cs) ->
               (fix each (cs : list node) (i : Z) (lines : list pystr)
                  {struct cs} : list pystr :=
                  match cs with
                  | [] => lines
                  | child :: cs' =>
                      each cs' (i + 1)
                        (_render_node_text child new_prefix (i =? n - 1) sc
                           show_size show_count max_width lines)
                  end) cs i acc =
               acc ++ map (truncate max_width)
                 ((fix each (cs : list node) : list pystr :=
                     match cs with
                     | [] => []
                     | child :: cs' =>
                         composed_lines child new_prefix
                           match cs' with [] => true | _ :: _ => false end
                           sc show_size show_count ++ each cs'
                     end) cs)).
    { induction cs as [|c cs IHcs]; intros i acc Hall Hn.
      - now rewrite app_nil_r.
      - inversion_clear Hall as [|? ? Hc Hcs].
        assert (E : (i =? n - 1) =
                    match cs with [] => true | _ :: _ => false end).
        { destruct cs; simpl List.length in Hn;
            [apply Z.eqb_eq|apply Z.eqb_neq]; lia. }
        rewrite E.
        rewrite IHcs; [|exact Hcs|simpl List.length in Hn; lia].
        now rewrite Hc, map_app, <- app_assoc. }
    rewrite (Hloop children 0 (lines ++ [line]) IH) by (subst n; lia).
    now rewrite <- app_assoc.
Qed.

(** The lines of [render_text_tree]: the header as composed, an empty
    line, then the composed lines of the tree cut to the width. *)
Lemma text_lines_eq (self : visualizer) (t : node) (style : pystr) :
  text_lines self t style show_size show_count max_width =
  header_line self t show_size show_count :: [] ::
  map (truncate max_width)
      (composed_lines t [] true (dict_get styles style unicode_style)
                      show_size show_count).
Proof.
  unfold text_lines. now rewrite _render_node_text_lines.
Qed.
End RenderFacts.

(** ** Size formatting *)

Lemma float_of_int_small (n : Z) :
  0 <= n < 2 ^ 53 -> float_of_int n = n.
Proof.
  intros [H0 H]. unfold float_of_int.
  destruct (Z.leb_spec (Z.log2 (Z.abs n) + 1) 53) as [_|Hb]; [reflexivity|].
  exfalso. rewrite Z.abs_eq in Hb by lia.
  assert (Z.log2 n < 53); [|lia].
  destruct (Z.eq_dec n 0) as [->|Hn]; [simpl; lia|].
  apply Z.log2_lt_pow2; lia.
Qed.

Lemma float_of_int_large (n : Z) :
  2 ^ 53 <= n -> 2 ^ 53 <= float_of_int n.
Proof.
  intros H. unfold float_of_int.
  destruct (Z.leb_spec (Z.log2 (Z.abs n) + 1) 53) as [_|Hb]; [exact H|].
  rewrite Z.abs_eq in * by lia.
  set (s := Z.log2 n + 1 - 53) in *.
  assert (Hs : 1 <= s) by (subst s; lia).
  assert (Hlog : 2 ^ (s + 52) <= n).
  { replace (s + 52) with (Z.log2 n) by (subst s; lia).
    apply Z.log2_spec. lia. }
  rewrite Z.sgn_pos by lia.
  rewrite Z.shiftl_mul_pow2 by lia.
  assert (Hq : 2 ^ 52 <= Z.shiftr n s).
  { rewrite Z.shiftr_div_pow2 by lia.
    apply Z.div_le_lower_bound; [apply Z.pow_pos_nonneg; lia|].
    rewrite <- Z.pow_add_r by lia. exact Hlog. }
  assert (Hp : 2 <= 2 ^ s).
  { change 2 with (2 ^ 1) at 1. apply Z.pow_le_mono_r; lia. }
  match goal with |- _ <= 1 * (?q' * _) => assert (Hq' : 2 ^ 52 <= q') end.
  { destruct (_ || _); lia. }
  change (2 ^ 53) with (2 ^ 52 * 2). nia.
Qed.

(** Rounding to a double does not move an integer across a bound that
    is itself a double of at most 53 bits. *)
Lemma float_of_int_threshold (n k : Z) :
  0 <= n -> 0 <= k <= 2 ^ 53 ->
  (k <=? float_of_int n) = (k <=? n).
Proof.
  intros Hn Hk. destruct (Z.lt_ge_cases n (2 ^ 53)) as [H|H].
  - now rewrite float_of_int_small.
  - pose proof (float_of_int_large n H).
    destruct (Z.leb_spec k (float_of_int n)), (Z.leb_spec k n); lia.
Qed.

(** The loop test on a scaled value is a comparison of integers. *)
Lemma ge_1024_scaled (n : Z) (i : nat) :
  0 <= n -> (1 <= i <= 4)%nat ->
  ge_1024 (PyFloat (scaled n i)) = (1024 ^ (Z.of_nat i + 1) <=? n).
Proof.
  intros Hn Hi.
  rewrite <- (float_of_int_threshold n (1024 ^ (Z.of_nat i + 1)) Hn).
  - unfold ge_1024, scaled.
    generalize (float_of_int n) as f. intros f.
    destruct i as [|[|[|[|[|i]]]]]; try lia;
      unfold Qle_bool; simpl; f_equal; lia.
  - destruct i as [|[|[|[|[|i]]]]]; try lia; simpl; lia.
Qed.

(** The loop of [format_size] stops at the specified unit. *)
Lemma size_loop_unit (n : Z) :
  0 < n ->
  let i := unit_index n in
  exists v,
    size_loop (List.length size_names) (PyInt n) 0 = (v, Z.of_nat i) /\
    as_float v = scaled n i.
Proof.
  intros Hn i. subst i. unfold unit_index.
  assert (H0 : 0 <= n) by lia.
  pose proof (ge_1024_scaled n 1 H0) as G1.
  pose proof (ge_1024_scaled n 2 H0) as G2.
  pose proof (ge_1024_scaled n 3 H0) as G3.
  change (size_loop (List.length size_names) (PyInt n) 0)
    with (if (1024 <=? n) && true
          then if ge_1024 (PyFloat (scaled n 1)) && true
               then if ge_1024 (PyFloat (scaled n 2)) && true
                    then if ge_1024 (PyFloat (scaled n 3)) && true
                         then if ge_1024 (PyFloat (scaled n 4)) && false
                              then (PyFloat (scaled n 5), 5)
                              else (PyFloat (scaled n 4), 4)
                         else (PyFloat (scaled n 3), 3)
                    else (PyFloat (scaled n 2), 2)
               else (PyFloat (scaled n 1), 1)
          else (PyInt n, 0)).
  rewrite andb_false_r, G1, G2, G3 by lia.
  change (1024 ^ (Z.of_nat 1 + 1)) with (1024 ^ 2).
  change (1024 ^ (Z.of_nat 2 + 1)) with (1024 ^ 3).
  change (1024 ^ (Z.of_nat 3 + 1)) with (1024 ^ 4).
  destruct (Z.ltb_spec n 1024), (Z.leb_spec 1024 n); try lia;
    [eexists; split; reflexivity|].
  destruct (Z.ltb_spec n (1024 ^ 2)), (Z.leb_spec (1024 ^ 2) n); try lia;
    [eexists; split; reflexivity|].
  destruct (Z.ltb_spec n (1024 ^ 3)), (Z.leb_spec (1024 ^ 3) n); try lia;
    [eexists; split; reflexivity|].
  destruct (Z.ltb_spec n (1024 ^ 4)), (Z.leb_spec (1024 ^ 4) n); try lia;
    eexists; split; reflexivity.
Qed.

Lemma scaled_succ (n : Z) (i : nat) :
  scaled n (S i) = (scaled n i / inject_Z 1024)%Q.
Proof. reflexivity. Qed.

Lemma scaled_value (n : Z) (i : nat) :
  (scaled n i == inject_Z (float_of_int n) / inject_Z (1024 ^ Z.of_nat i))%Q.
Proof.
  induction i as [|i IH].
  - unfold scaled. simpl. field.
  - rewrite scaled_succ, IH.
    rewrite Nat2Z.inj_succ, Z.pow_succ_r by lia.
    rewrite inject_Z_mult. field.
    change 0%Q with (inject_Z 0). rewrite inject_Z_injective.
    apply Z.pow_nonzero; lia.
Qed.

Lemma pow_1024_pos (i : nat) : (0 < inject_Z (1024 ^ Z.of_nat i))%Q.
Proof.
  change 0%Q with (inject_Z 0). rewrite <- Zlt_Qlt.
  apply Z.pow_pos_nonneg; lia.
Qed.

(** A scaled value against 1024, in integers. *)
Lemma scaled_lt_1024 (n : Z) (i : nat) :
  float_of_int n < 1024 ^ (Z.of_nat i + 1) -> (scaled n i < inject_Z 1024)%Q.
Proof.
  intros H. rewrite scaled_value.
  apply Qlt_shift_div_r; [apply pow_1024_pos|].
  rewrite <- inject_Z_mult, <- Zlt_Qlt.
  rewrite Z.pow_add_r in H by lia. lia.
Qed.

Lemma scaled_ge_1024 (n : Z) (i : nat) :
  1024 ^ (Z.of_nat i + 1) <= float_of_int n -> (inject_Z 1024 <= scaled n i)%Q.
Proof.
  intros H. rewrite scaled_value.
  apply Qle_shift_div_l; [apply pow_1024_pos|].
  rewrite <- inject_Z_mult, <- Zle_Qle.
  rewrite Z.pow_add_r in H by lia. lia.
Qed.

(** The unit chosen is the specified one: the value shown is below 1024
    unless the unit is the last, and the value at the unit before was
    1024 or more. *)
Lemma unit_index_bounds (n : Z) :
  0 < n ->
  let i := unit_index n in
  (i <= 4)%nat /\
  ((i < 4)%nat -> (scaled n i < inject_Z 1024)%Q) /\
  ((0 < i)%nat -> (inject_Z 1024 <= scaled n (i - 1))%Q).
Proof.
  intros Hn i. subst i.
  assert (T : forall k, 0 <= k <= 2 ^ 53 ->
                        (k <= float_of_int n <-> k <= n)).
  { intros k Hk. pose proof (float_of_int_threshold n k ltac:(lia) Hk) as E.
    destruct (Z.leb_spec k (float_of_int n)), (Z.leb_spec k n);
      try discriminate; lia. }
  unfold unit_index.
  destruct (Z.ltb_spec n 1024);
    [|destruct (Z.ltb_spec n (1024 ^ 2));
      [|destruct (Z.ltb_spec n (1024 ^ 3));
        [|destruct (Z.ltb_spec n (1024 ^ 4))]]];
    (split; [lia|split; intros Hi; try lia]).
  all: try (apply scaled_lt_1024; simpl Z.of_nat;
            match goal with
            | |- _ < ?b => assert (~ b <= float_of_int n); [|lia]
            end;
            rewrite T; simpl; lia).
  all: apply scaled_ge_1024; simpl Z.of_nat; apply T; simpl; lia.
Qed.

(** ** The [.1f] format *)

Lemma str_of_int_digit (d : Z) :
  0 <= d < 10 -> str_of_int d = [(48 + Z.to_N d)%N].
Proof.
  intros H.
  assert (d = 0 \/ d = 1 \/ d = 2 \/ d = 3 \/ d = 4 \/ d = 5 \/ d = 6 \/
          d = 7 \/ d = 8 \/ d = 9) as E by lia.
  repeat destruct E as [->|E]; try subst d; reflexivity.
Qed.

(** [round_tenths] is the nearest integer to ten times its argument. *)
Lemma round_tenths_nearest (x : Q) :
  (0 <= x)%Q ->
  0 <= round_tenths x /\
  (Qabs (inject_Z (round_tenths x) - inject_Z 10 * x) <= 1 # 2)%Q.
Proof.
  intros Hx. destruct x as [a d].
  assert (Ha : 0 <= a) by (unfold Qle in Hx; simpl in Hx; lia).
  clear Hx. unfold round_tenths. cbn [Qnum Qden].
  pose proof (Z.div_mod (a * 10) (Zpos d) ltac:(lia)) as Hdm.
  pose proof (Z.mod_pos_bound (a * 10) (Zpos d) ltac:(lia)) as Hr.
  assert (Hfl : 0 <= a * 10 / Zpos d) by (apply Z.div_pos; lia).
  set (fl := a * 10 / Zpos d) in *. set (r := (a * 10) mod Zpos d) in *.
  match goal with
  | |- context [if ?c then ?u else ?v] => set (t := if c then u else v)
  end.
  assert (Ht : (t = fl /\ 2 * r <= Zpos d) \/ (t = fl + 1 /\ Zpos d <= 2 * r)).
  { subst t. destruct (Z.ltb_spec (Zpos d) (2 * r)); cbn [orb andb];
      [right; lia|].
    destruct (Z.eqb_spec (2 * r) (Zpos d)); cbn [orb andb]; [|left; lia].
    destruct (Z.odd fl); [right|left]; lia. }
  clearbody t. split; [lia|].
  cbv [Qle Qabs Qminus Qplus Qopp Qmult inject_Z Qnum Qden].
  rewrite ?Pos.mul_1_l. lia.
Qed.

(** [fmt_1f] shows the integer part, a point and one digit. *)
Lemma fmt_1f_shape (x : Q) :
  (0 <= x)%Q ->
  let t := round_tenths x in
  fmt_1f x = str_of_int (t / 10) ++ lit "." ++ [(48 + Z.to_N (t mod 10))%N].
Proof.
  intros Hx t. unfold fmt_1f.
  assert (Hn : 0 <= Qnum x).
  { destruct x as [a d]. unfold Qle in Hx. simpl in *. lia. }
  destruct (Z.ltb_spec (Qnum x) 0); [lia|].
  assert (E : Qabs x = x).
  { destruct x as [a d]. simpl in *. now rewrite Z.abs_eq. }
  rewrite E. fold t. simpl app.
  rewrite (str_of_int_digit (t mod 10)); [reflexivity|].
  apply Z.mod_pos_bound. lia.
Qed.

(** ** Scans through [scan_directory] *)

Lemma nodes_trans (t x y : node) :
  In x (nodes t) -> In y (nodes x) -> In y (nodes t).
Proof.
  induction t as [name path size ext modified
                 |name path size children fc dc IH] using node_tree_ind;
    intros Hx Hy.
  - destruct Hx as [<-|[]]. exact Hy.
  - apply nodes_directory in Hx. destruct Hx as [->|(c & Hc & Hx)];
      [exact Hy|].
    apply nodes_directory. right. exists c. split; [exact Hc|].
    rewrite Forall_forall in IH. now apply IH.
Qed.

Section ScanDirectoryFacts.
Context {L : StrLower}.

(** A scan that returns has found a directory at the resolved path and
    returns what [_scan_recursive] builds from the reset object. *)
Lemma scan_directory_returned fs self path opts t self' :
  scan_directory fs self path opts = Returned t self' ->
  exists dir,
    lookup fs (resolve fs path) = Some dir /\ is_dir dir = true /\
    t = fst (_scan_recursive opts dir (resolve fs path) 0
                             (reset self (resolve fs path))) /\
    self' = set_tree_data
              (snd (_scan_recursive opts dir (resolve fs path) 0
                                    (reset self (resolve fs path)))) t.
Proof.
  unfold scan_directory. intros H.
  destruct (lookup fs (resolve fs path)) as [dir|]; [|discriminate].
  destruct (is_dir dir) eqn:Hd; simpl in H; [|discriminate].
  destruct (_scan_recursive opts dir (resolve fs path) 0
                            (reset self (resolve fs path)))
    as [t1 s1] eqn:E.
  inversion H; subst. exists dir. rewrite E. repeat split. exact Hd.
Qed.

Lemma scan_directory_built fs self path opts t self' :
  scan_directory fs self path opts = Returned t self' ->
  exists s1,
    built opts (resolve fs path) 0 (reset self (resolve fs path)) t s1 /\
    self' = set_tree_data s1 t.
Proof.
  intros H. apply scan_directory_returned in H.
  destruct H as (dir & _ & _ & -> & ->).
  eexists. split; [apply _scan_recursive_built|reflexivity].
Qed.

Lemma scan_failure_keeps_tree fs self path opts e self' :
  scan_directory fs self path opts = Raised e self' ->
  self' = reset self (resolve fs path).
Proof.
  unfold scan_directory. intros H.
  destruct (lookup fs (resolve fs path)) as [dir|]; [|now inversion H].
  destruct (is_dir dir); simpl in H; [|now inversion H].
  destruct (_scan_recursive _ _ _ _ _). discriminate.
Qed.

Lemma never_scanned_no_tree self :
  never_scanned self -> tree_data self = None.
Proof.
  induction 1 as [|fs self path opts e self' _ IH Hs]; [reflexivity|].
  apply scan_failure_keeps_tree in Hs. subst self'. exact IH.
Qed.
End ScanDirectoryFacts.

(** ** Sums over a sorted listing *)

Lemma insert_by_perm {A : Type} (key : A -> sort_key) (x : A) (l : list A) :
  Permutation (insert_by key x l) (x :: l).
Proof.
  induction l as [|y l IH]; simpl; [reflexivity|].
  destruct (key_leb (key x) (key y)); [reflexivity|].
  rewrite IH. apply perm_swap.
Qed.

Lemma sort_by_perm {A : Type} (key : A -> sort_key) (l : list A) :
  Permutation (sort_by key l) l.
Proof.
  induction l as [|x l IH]; simpl; [reflexivity|].
  rewrite insert_by_perm. now constructor.
Qed.

Lemma sum_perm {A : Type} (f : A -> Z) (l1 l2 : list A) :
  Permutation l1 l2 ->
  fold_right (fun e acc => f e + acc) 0 l1 =
  fold_right (fun e acc => f e + acc) 0 l2.
Proof.
  induction 1; simpl; lia.
Qed.

(** ** The size kept below a directory *)

Section KeptSize.
Context {L : StrLower}.
Variable opts : scan_options.

Lemma kept_size_dir d entries :
  kept_size opts d (FsDir (Some entries)) =
  if depth_reached opts d then 0
  else fold_right (fun e acc => entry_kept_size opts d e + acc) 0 entries.
Proof. reflexivity. Qed.

Lemma sized_as_kept_entry path d entries name obj j x :
  In (name, obj) entries ->
  sized_as_kept opts (path_child path name) (d + 1) obj j x ->
  sized_as_kept opts path d (FsDir (Some entries)) j x.
Proof.
  intros Hin (rel & o & Hr & Hj & Hp & Hs).
  exists (name :: rel), o. unfold path_child in Hp.
  rewrite <- app_assoc in Hp. cbn [app] in Hp.
  repeat split; try assumption.
  - econstructor; eassumption.
  - cbn [List.length]. lia.
Qed.

Lemma scan_item_kept path d rec entries name obj nd s :
  In (name, obj) entries ->
  (is_dir obj = true ->
   forall p s',
     node_size (fst (rec p (d + 1) s')) = kept_size opts (d + 1) obj /\
     forall j x, In (j, x) (nodes_at (d + 1) (fst (rec p (d + 1) s'))) ->
                 is_directory x = true ->
                 sized_as_kept opts p (d + 1) obj j x) ->
  is_directory nd = true ->
  (forall c j x, In c (node_children nd) -> In (j, x) (nodes_at (d + 1) c) ->
                 is_directory x = true ->
                 sized_as_kept opts path d (FsDir (Some entries)) j x) ->
  let nd1 := fst (scan_item opts path d rec (name, obj) (nd, s)) in
  is_directory nd1 = true /\
  node_path nd1 = node_path nd /\
  node_size nd1 = node_size nd + entry_kept_size opts d (name, obj) /\
  (forall c j x, In c (node_children nd1) -> In (j, x) (nodes_at (d + 1) c) ->
                 is_directory x = true ->
                 sized_as_kept opts path d (FsDir (Some entries)) j x).
Proof.
  intros Hin Hrec Hd Hc. unfold scan_item, entry_kept_size. cbn [fst snd].
  destruct (skip_hidden opts name);
    [cbn [fst]; repeat split; [assumption|lia|assumption]|].
  destruct nd as [nm p sz cs fc dc|]; [|discriminate].
  cbn [node_children node_path node_size] in *.
  destruct obj as [[st|]|e|]; cbn [is_dir is_file].
  - destruct (include_files opts); cbn [andb];
      [|cbn [fst node_size node_children node_path];
        repeat split; [lia|assumption]].
    destruct (extension_rejects opts name); cbn [negb andb];
      [cbn [fst node_size node_children node_path];
       repeat split; [lia|assumption]|].
    destruct (size_rejects opts (st_size st)); cbn [negb];
      [cbn [fst node_size node_children node_path];
       repeat split; [lia|assumption]|].
    cbn [fst add_file node_size node_children node_path is_directory].
    repeat split. intros c j x Hcin Hx Hxd.
    apply in_app_or in Hcin. destruct Hcin as [Hcin|[<-|[]]].
    + eapply Hc; eassumption.
    + destruct Hx as [Hx|[]]. inversion Hx; subst. discriminate.
  - rewrite andb_true_r.
    destruct (include_files opts);
      cbn [fst node_size node_children node_path];
      repeat split; try lia; assumption.
  - specialize (Hrec eq_refl (path_child path name) s).
    destruct (rec (path_child path name) (d + 1) s) as [child s1].
    cbn [fst] in Hrec. destruct Hrec as [Hsz Hch].
    cbn [fst add_directory node_size node_children node_path is_directory].
    repeat split; [lia|].
    intros c j x Hcin Hx Hxd.
    apply in_app_or in Hcin. destruct Hcin as [Hcin|[<-|[]]].
    + eapply Hc; eassumption.
    + eapply sized_as_kept_entry; [exact Hin|]. now apply Hch.
  - rewrite andb_false_r.
    cbn [fst node_size node_children node_path].
    repeat split; [lia|assumption].
Qed.

Lemma scan_items_kept path d rec entries items : forall nd s,
  Forall (fun e =>
            In e entries /\
            (is_dir (snd e) = true ->
             forall p s',
               node_size (fst (rec (snd e) p (d + 1) s')) =
                 kept_size opts (d + 1) (snd e) /\
               forall j x,
                 In (j, x) (nodes_at (d + 1) (fst (rec (snd e) p (d + 1) s'))) ->
                 is_directory x = true ->
                 sized_as_kept opts p (d + 1) (snd e) j x)) items ->
  is_directory nd = true ->
  (forall c j x, In c (node_children nd) -> In (j, x) (nodes_at (d + 1) c) ->
                 is_directory x = true ->
                 sized_as_kept opts path d (FsDir (Some entries)) j x) ->
  let nd' := fst (scan_items opts path d rec items (nd, s)) in
  is_directory nd' = true /\
  node_path nd' = node_path nd /\
  node_size nd' =
    node_size nd +
    fold_right (fun e acc => entry_kept_size opts d e + acc) 0 items /\
  (forall c j x, In c (node_children nd') -> In (j, x) (nodes_at (d + 1) c) ->
                 is_directory x = true ->
                 sized_as_kept opts path d (FsDir (Some entries)) j x).
Proof.
  induction items as [|[name obj] items IH]; intros nd s Hall Hd Hc.
  - cbn. repeat split; [assumption|lia|assumption].
  - rewrite scan_items_cons. inversion_clear Hall as [|? ? [H1 H1'] H2].
    cbn [snd] in H1' |- *.
    pose proof (scan_item_kept path d (rec obj) entries name obj nd s
                  H1 H1' Hd Hc) as Hstep.
    destruct (scan_item opts path d (rec obj) (name, obj) (nd, s))
      as [nd1 s1]. cbn [fst] in Hstep.
    destruct Hstep as (Hd1 & Hp1 & Hs1 & Hc1).
    destruct (IH nd1 s1 H2 Hd1 Hc1) as (Hd2 & Hp2 & Hs2 & Hc2).
    cbn zeta in *. cbn [fold_right].
    repeat split; [assumption|congruence|lia|assumption].
Qed.

(** The node of a scanned directory holds the size of what is kept
    below the directory, and so does every directory node under it. *)
Lemma _scan_recursive_kept (dir : fsobj) : forall path d s,
  let nd := fst (_scan_recursive opts dir path d s) in
  node_size nd = kept_size opts d dir /\
  forall j x, In (j, x) (nodes_at d nd) -> is_directory x = true ->
              sized_as_kept opts path d dir j x.
Proof.
  assert (Hnew : forall o path d,
             kept_size opts d o = 0 ->
             node_size (new_node path) = kept_size opts d o /\
             forall j x, In (j, x) (nodes_at d (new_node path)) ->
                         is_directory x = true ->
                         sized_as_kept opts path d o j x).
  { intros o path d Hz. split; [now rewrite Hz|].
    intros j x [Hx|[]] _. inversion Hx; subst.
    exists [], o. rewrite app_nil_r, Hz.
    repeat split; [constructor|cbn; lia]. }
  induction dir as [st| | |entries IH] using fsobj_tree_ind;
    intros path d s; rewrite _scan_recursive_eq;
    try (destruct (depth_reached opts d); cbn [fst]; now apply Hnew).
  destruct (depth_reached opts d) eqn:Hdepth.
  { cbn [fst]. apply Hnew. now rewrite kept_size_dir, Hdepth. }
  destruct (scan_items_kept path d (_scan_recursive opts) entries
              (sort_by item_key entries) (new_node path) s)
    as (Hd & Hp & Hs & Hc).
  - apply sort_by_Forall. rewrite Forall_forall in IH |- *.
    intros e He. split; [exact He|]. intros _ p s'. now apply IH.
  - reflexivity.
  - intros c j x [].
  - cbn zeta.
    destruct (fst (scan_items opts path d (_scan_recursive opts)
                     (sort_by item_key entries) (new_node path, s)))
      as [nm pp sz cs fc dc|] eqn:E; [|discriminate].
    cbn [node_size node_path node_children new_node] in *.
    assert (Hsize : sz = kept_size opts d (FsDir (Some entries))).
    { rewrite kept_size_dir, Hdepth, Hs.
      rewrite (sum_perm (entry_kept_size opts d) _ _
                 (sort_by_perm item_key entries)). lia. }
    split; [exact Hsize|].
    intros j x Hx Hxd. apply nodes_at_directory in Hx.
    destruct Hx as [[-> ->]|(c & Hcin & Hx)].
    + exists [], (FsDir (Some entries)). rewrite app_nil_r.
      repeat split; [constructor|cbn; lia|exact Hp|exact Hsize].
    + eapply Hc; eassumption.
Qed.

End KeptSize.

(** ** The empty list of extensions *)

Section EmptyExtensions.
Context {L : StrLower}.
Variable opts : scan_options.
Hypothesis empty_list : extensions opts = Some [].



End EmptyExtensions.

(* ================================================================== *)
(** * The claims *)

Section Aggregates.
Context {L : StrLower}.

(** C1. In every tree a scan returns, the size of each directory node
    is the sum of the sizes of its children, and so, transitively, the
    total size of the file nodes below it.  Every node below the root,
    directory or file, has a name that the hidden test lets through,
    and every file node passed the extension and size filters.  Every
    directory node is the node of a directory of the file system at its
    depth, and its size is the total size of the files kept below that
    directory ([kept_size]): an entry that a filter removes, and all
    that lies under a hidden directory, adds nothing to the size of any
    ancestor. *)
Theorem scan_sizes_add_up fs self path opts t self' :
  scan_directory fs self path opts = Returned t self' ->
  (forall x, In x (nodes t) ->
     (is_directory x = true ->
      node_size x = sum_sizes (node_children x) /\
      node_size x = files_total x) /\
     (is_directory x = false ->
      skip_hidden opts (node_name x) = false /\
      extension_rejects opts (node_name x) = false /\
      size_rejects opts (node_size x) = false)) /\
  (forall x, In x (descendants t) ->
     skip_hidden opts (node_name x) = false) /\
  exists dir,
    lookup fs (resolve fs path) = Some dir /\
    node_size t = kept_size opts 0 dir /\
    forall j x, In (j, x) (nodes_at 0 t) -> is_directory x = true ->
                sized_as_kept opts (resolve fs path) 0 dir j x.
Proof.
  intros Hscan.
  destruct (scan_directory_built _ _ _ _ _ _ Hscan) as (s1 & Hb & _).
  pose proof (built_local_sums opts _ _ _ _ _ Hb) as Hsum.
  split; [|split].
  - intros x Hx. split; intros Hd.
    + split; [now apply Hsum|].
      apply local_sums_files_total. intros y Hy.
      apply Hsum. eapply nodes_trans; eassumption.
    + apply nodes_root_or_descendant in Hx. destruct Hx as [->|Hx].
      * destruct (built_is_directory opts _ _ _ _ _ Hb)
          as (sz & cs & fc & dc & ->). discriminate.
      * destruct (built_passed opts _ _ _ _ _ Hb x Hx) as [Hh Hf].
        destruct (Hf Hd) as (_ & He & Hs & _). auto.
  - intros x Hx. now destruct (built_passed opts _ _ _ _ _ Hb x Hx).
  - destruct (scan_directory_returned _ _ _ _ _ _ Hscan)
      as (dir & Hl & _ & -> & _).
    exists dir. split; [exact Hl|].
    apply (_scan_recursive_kept opts dir).
Qed.

(** C2. After a scan that returns, the counters of the object are the
    aggregates of the root node: [file_count], [folder_count] and
    [total_size] equal the root's [file_count], [folder_count] and
    [size]; they are the number of file nodes, the number of directory
    nodes below the root and the total size of the file nodes of the
    tree that the object now holds. *)
Theorem scan_counters_are_root_aggregates fs self path opts t self' :
  scan_directory fs self path opts = Returned t self' ->
  file_count self' = node_file_count t /\
  folder_count self' = node_folder_count t /\
  total_size self' = node_size t /\
  tree_data self' = Some t /\
  node_file_count t = files_below t /\
  node_folder_count t = folders_below t /\
  node_size t = files_total t.
Proof.
  intros Hscan.
  destruct (scan_directory_built _ _ _ _ _ _ Hscan) as (s1 & Hb & ->).
  destruct (built_counters opts _ _ _ _ _ Hb) as (Hf & Hd & Hs & _).
  destruct (built_counts opts _ _ _ _ _ Hb) as (Hfb & Hdb).
  assert (Hft : node_size t = files_total t).
  { apply local_sums_files_total. apply (built_local_sums opts _ _ _ _ _ Hb). }
  simpl in *. repeat split; try lia; assumption.
Qed.

(** C5. A scan of a path that does not exist raises
    [FileNotFoundError], and a scan of a path that exists and is not
    a directory raises [ValueError]; the call returns no tree, and the
    tree the object holds is not touched. *)
Theorem scan_root_errors fs self path opts :
  (lookup fs (resolve fs path) = None ->
   scan_directory fs self path opts =
   Raised (FileNotFoundError (lit "Directory not found: " ++ path))
          (reset self (resolve fs path))) /\
  (forall o,
      lookup fs (resolve fs path) = Some o -> is_dir o = false ->
      scan_directory fs self path opts =
      Raised (ValueError (lit "Path is not a directory: " ++ path))
             (reset self (resolve fs path))) /\
  tree_data (reset self (resolve fs path)) = tree_data self.
Proof.
  unfold scan_directory. split; [|split].
  - intros ->. reflexivity.
  - intros o -> ->. reflexivity.
  - reflexivity.
Qed.
End Aggregates.

Lemma scan_sizes_add_up_witness :
  exists t self',
    scan_directory (L := ascii_lower) sample_fs init (lit "/proj")
                   default_options = Returned t self' /\
    node_size t = 37 /\
    (forall x, In x (nodes t) ->
      (is_directory x = true ->
       node_size x = sum_sizes (node_children x) /\
       node_size x = files_total x) /\
      (is_directory x = false ->
       skip_hidden default_options (node_name x) = false /\
       extension_rejects (L := ascii_lower) default_options (node_name x)
         = false /\
       size_rejects default_options (node_size x) = false)) /\
    (forall x, In x (descendants t) ->
       skip_hidden default_options (node_name x) = false) /\
    exists dir,
      lookup sample_fs (resolve sample_fs (lit "/proj")) = Some dir /\
      node_size t = kept_size (L := ascii_lower) default_options 0 dir /\
      forall j x, In (j, x) (nodes_at 0 t) -> is_directory x = true ->
                  sized_as_kept (L := ascii_lower) default_options
                                (resolve sample_fs (lit "/proj")) 0 dir j x.
Proof.
  eexists. eexists. split; [vm_compute; reflexivity|].
  split; [reflexivity|].
  eapply (scan_sizes_add_up (L := ascii_lower) sample_fs init
            (lit "/proj") default_options).
  vm_compute. reflexivity.
Defined.

Lemma scan_counters_are_root_aggregates_witness :
  exists t self',
    scan_directory (L := ascii_lower) sample_fs init (lit "/proj")
                   default_options = Returned t self' /\
    file_count self' = 3 /\ folder_count self' = 2 /\ total_size self' = 37 /\
    file_count self' = node_file_count t /\
    folder_count self' = node_folder_count t /\
    total_size self' = node_size t /\
    tree_data self' = Some t /\
    node_file_count t = files_below t /\
    node_folder_count t = folders_below t /\
    node_size t = files_total t.
Proof.
  eexists. eexists. split; [vm_compute; reflexivity|].
  split; [reflexivity|]. split; [reflexivity|]. split; [reflexivity|].
  eapply (scan_counters_are_root_aggregates
            (L := ascii_lower) sample_fs init (lit "/proj") default_options).
  vm_compute. reflexivity.
Defined.

Lemma scan_root_errors_witness :
  lookup sample_fs (resolve sample_fs (lit "/nope")) = None /\
  lookup sample_fs (resolve sample_fs (lit "/notes.md")) =
    Some (file_of_size 100) /\
  is_dir (file_of_size 100) = false /\
  scan_directory (L := ascii_lower) sample_fs init (lit "/nope")
                 default_options =
  Raised (FileNotFoundError (lit "Directory not found: /nope"))
         (reset init [lit "nope"]) /\
  scan_directory (L := ascii_lower) sample_fs init (lit "/notes.md")
                 default_options =
  Raised (ValueError (lit "Path is not a directory: /notes.md"))
         (reset init [lit "notes.md"]).
Proof.
  split; [reflexivity|]. split; [reflexivity|]. split; [reflexivity|].
  split.
  - apply (proj1 (scan_root_errors (L := ascii_lower) sample_fs init
                                   (lit "/nope") default_options)).
    reflexivity.
  - apply (proj1 (proj2 (scan_root_errors (L := ascii_lower) sample_fs init
                           (lit "/notes.md") default_options))
                 (file_of_size 100)); reflexivity.
Defined.

Section Filters.
Context {L : StrLower}.

(** C3 (as amended).  With [show_hidden] false, no node below the
    root of the tree has a name that starts with a dot, and the scan
    returns the same tree and leaves the same counters as on the file
    system without any of its hidden entries: a hidden entry and all
    that is under it add nothing to any aggregate.  (The root node
    carries the name of the scanned directory, hidden or not.) *)
Theorem scan_hidden_below_root fs self path opts t self' :
  show_hidden opts = false ->
  scan_directory fs self path opts = Returned t self' ->
  (forall x, In x (descendants t) -> hidden_name (node_name x) = false) /\
  scan_directory (prune_hidden_fs fs) self path opts = Returned t self'.
Proof.
  intros Hh Hscan. split.
  - destruct (scan_directory_built _ _ _ _ _ _ Hscan) as (s1 & Hb & _).
    intros x Hx. destruct (built_passed opts _ _ _ _ _ Hb x Hx) as [Hs _].
    now rewrite skip_hidden_is_hidden in Hs.
  - rewrite <- Hscan. unfold scan_directory. simpl.
    destruct (lookup fs (resolve fs path)) as [dir|]; simpl; [|reflexivity].
    rewrite is_dir_prune.
    destruct (is_dir dir); simpl; [|reflexivity].
    now rewrite _scan_recursive_pruned.
Qed.

End Filters.

Lemma scan_hidden_below_root_witness :
  exists t self',
    show_hidden default_options = false /\
    scan_directory (L := ascii_lower) sample_fs init (lit "/proj")
                   default_options = Returned t self' /\
    (forall x, In x (descendants t) -> hidden_name (node_name x) = false) /\
    scan_directory (L := ascii_lower) (prune_hidden_fs sample_fs) init
                   (lit "/proj") default_options = Returned t self'.
Proof.
  eexists. eexists. split; [reflexivity|]. split.
  - vm_compute. reflexivity.
  - apply (scan_hidden_below_root (L := ascii_lower) sample_fs init
                                  (lit "/proj") default_options).
    + reflexivity.
    + vm_compute. reflexivity.
Defined.

(** C3, as stated, fails at the root: a scan of the hidden directory
    [/.cache] returns a tree whose root node is named [.cache]. *)
Lemma scan_hidden_root_counterexample :
  ~ (forall fs self path opts t self',
        show_hidden opts = false ->
        scan_directory (L := ascii_lower) fs self path opts =
          Returned t self' ->
        forall x, In x (nodes t) -> hidden_name (node_name x) = false).
Proof.
  intros H.
  destruct (scan_directory (L := ascii_lower) sample_fs init (lit "/.cache")
                           default_options) as [t s|e s] eqn:E;
    [|vm_compute in E; discriminate].
  specialize (H sample_fs init (lit "/.cache") default_options t s
                eq_refl E t
                (proj2 (nodes_root_or_descendant t t) (or_introl eq_refl))).
  vm_compute in E. inversion E; subst. vm_compute in H. discriminate.
Qed.



Section DepthLimit.
Context {L : StrLower}.
Variable opts : scan_options.

Lemma _scan_recursive_at_limit dir path d s :
  depth_reached opts d = true ->
  _scan_recursive opts dir path d s = (new_node path, s).
Proof. intros H. now rewrite _scan_recursive_eq, H. Qed.

(** A turn of the loop keeps the children already appended. *)
Lemma scan_item_keeps path d rec item nd s :
  is_directory nd = true ->
  is_directory (fst (scan_item opts path d rec item (nd, s))) = true /\
  forall c, In c (node_children nd) ->
            In c (node_children (fst (scan_item opts path d rec item
                                                (nd, s)))).
Proof.
  intros Hnd. destruct nd as [nm p sz cs fc dc|]; [|discriminate].
  destruct item as [name obj]. unfold scan_item.
  destruct (skip_hidden opts name); [now split|].
  destruct (is_dir obj).
  - destruct (rec _ _ s) as [child s1]. simpl. split; [reflexivity|].
    intros c Hc. apply in_or_app. now left.
  - destruct (include_files opts && is_file obj); [|now split].
    destruct obj as [[st|]|e|]; try now split.
    destruct (extension_rejects opts name); [now split|].
    destruct (size_rejects opts (st_size st)); [now split|].
    simpl. split; [reflexivity|].
    intros c Hc. apply in_or_app. now left.
Qed.

Lemma scan_items_keeps path d rec items : forall nd s,
  is_directory nd = true ->
  is_directory (fst (scan_items opts path d rec items (nd, s))) = true /\
  forall c, In c (node_children nd) ->
            In c (node_children (fst (scan_items opts path d rec items
                                                 (nd, s)))).
Proof.
  induction items as [|item items IH]; intros nd s Hnd; [now split|].
  rewrite scan_items_cons.
  destruct (scan_item_keeps path d (rec (snd item)) item nd s Hnd)
    as [Hd Hk].
  destruct (scan_item opts path d (rec (snd item)) item (nd, s))
    as [nd1 s1]. simpl in Hd, Hk.
  destruct (IH nd1 s1 Hd) as [Hd' Hk']. split; [exact Hd'|].
  intros c Hc. apply Hk', Hk, Hc.
Qed.

(** A subdirectory that is not hidden gets its node, whatever the
    filters. *)
Lemma scan_items_appends path d rec name obj items : forall nd s,
  is_directory nd = true ->
  In (name, obj) items -> is_dir obj = true ->
  skip_hidden opts name = false ->
  exists s1,
    In (fst (rec obj (path_child path name) (d + 1) s1))
       (node_children (fst (scan_items opts path d rec items (nd, s)))).
Proof.
  induction items as [|item items IH]; intros nd s Hnd Hin Hdir Hvis;
    [destruct Hin|].
  rewrite scan_items_cons.
  destruct (scan_item_keeps path d (rec (snd item)) item nd s Hnd)
    as [Hd Hk].
  destruct Hin as [->|Hin].
  - exists s.
    assert (Hhere : In (fst (rec obj (path_child path name) (d + 1) s))
              (node_children
                 (fst (scan_item opts path d (rec obj) (name, obj)
                                 (nd, s))))).
    { destruct nd as [nm p sz cs fc dc|]; [|discriminate].
      unfold scan_item. rewrite Hvis, Hdir.
      destruct (rec obj (path_child path name) (d + 1) s) as [child s1].
      simpl. apply in_or_app. right. now left. }
    simpl snd in *.
    destruct (scan_item opts path d (rec obj) (name, obj) (nd, s))
      as [nd1 s1]. simpl in Hd, Hhere.
    now apply (scan_items_keeps path d rec items nd1 s1 Hd).
  - destruct (scan_item opts path d (rec (snd item)) item (nd, s))
      as [nd1 s1]. simpl in Hd.
    now apply IH.
Qed.

(** C4. With [max_depth = k]: a directory at depth [k] or more gets
    the fresh node (no children, size and counts zero) whatever it
    holds, and nothing is counted for it; a visible subdirectory of
    a directory at depth [k - 1] does get that node among the
    children of its parent; with [k = 0] the scan returns the root
    node with no children; and in any tree a scan returns, a node
    at depth [k] or more has no children, with zero size and counts
    if it is a directory. *)
Theorem scan_depth_bound fs self path k :
  max_depth opts = Some k ->
  (forall dir p d s,
      k <= d -> _scan_recursive opts dir p d s = (new_node p, s)) /\
  (forall entries name sub p d s,
      d < k -> k <= d + 1 ->
      In (name, FsDir sub) entries -> skip_hidden opts name = false ->
      In (new_node (path_child p name))
         (node_children
            (fst (_scan_recursive opts (FsDir (Some entries)) p d s)))) /\
  (forall dir,
      k = 0 ->
      lookup fs (resolve fs path) = Some dir -> is_dir dir = true ->
      scan_directory fs self path opts =
      Returned (new_node (resolve fs path))
               (set_tree_data (reset self (resolve fs path))
                              (new_node (resolve fs path)))) /\
  (forall t self',
      scan_directory fs self path opts = Returned t self' ->
      forall j x, In (j, x) (nodes_at 0 t) ->
        0 <= j /\
        (k <= j ->
         node_children x = [] /\
         (is_directory x = true ->
          node_size x = 0 /\ node_file_count x = 0 /\
          node_folder_count x = 0))).
Proof.
  intros Hk.
  assert (Hreach : forall d, depth_reached opts d = (k <=? d))
    by (intros d; unfold depth_reached; now rewrite Hk).
  split; [|split; [|split]].
  - intros dir p d s Hd. apply _scan_recursive_at_limit.
    rewrite Hreach. now apply Z.leb_le.
  - intros entries name sub p d s Hlt Hle Hin Hvis.
    rewrite _scan_recursive_eq, Hreach.
    destruct (Z.leb_spec k d); [lia|].
    destruct (scan_items_appends p d (_scan_recursive opts) name
                (FsDir sub) (sort_by item_key entries) (new_node p) s
                eq_refl) as [s1 Hs1]; auto.
    { now apply sort_by_In. }
    rewrite _scan_recursive_at_limit in Hs1; [exact Hs1|].
    rewrite Hreach. apply Z.leb_le. lia.
  - intros dir -> Hl Hd. unfold scan_directory. rewrite Hl, Hd. simpl.
    rewrite _scan_recursive_at_limit; [reflexivity|].
    now rewrite Hreach.
  - intros t self' Hscan j x Hx.
    destruct (scan_directory_built _ _ _ _ _ _ Hscan) as (s1 & Hb & _).
    destruct (built_depth opts _ _ _ _ _ Hb j x Hx) as [H0 Hleaf].
    split; [exact H0|]. intros Hj. apply Hleaf.
    rewrite Hreach. now apply Z.leb_le.
Qed.
End DepthLimit.

Lemma scan_depth_bound_witness :
  max_depth (depth_limited 0) = Some 0 /\
  lookup sample_fs (resolve sample_fs (lit "/proj")) <> None /\
  scan_directory (L := ascii_lower) sample_fs init (lit "/proj")
                 (depth_limited 0) =
  Returned (new_node [lit "proj"])
           (set_tree_data (reset init [lit "proj"]) (new_node [lit "proj"])).
Proof.
  split; [reflexivity|]. split; [vm_compute; discriminate|].
  eapply (proj1 (proj2 (proj2
            (scan_depth_bound (L := ascii_lower) (depth_limited 0) sample_fs
                              init (lit "/proj") 0 eq_refl)))).
  - reflexivity.
  - vm_compute. reflexivity.
  - reflexivity.
Defined.

(** C6. [format_size] writes a size in the units B, KB, MB, GB, TB,
    each 1024 times the one before, with one decimal: zero is ["0 B"];
    any other size is divided by 1024 as long as it is 1024 or more
    and a larger unit remains, so that the value shown is below 1024
    unless the unit is TB, and is rounded to the nearest tenth; and
    the five values of the specification are as it gives them. *)
Theorem format_size_units :
  (format_size 0 = lit "0 B" /\
   format_size 1023 = lit "1023.0 B" /\
   format_size 1024 = lit "1.0 KB" /\
   format_size 1536 = lit "1.5 KB" /\
   format_size 1048576 = lit "1.0 MB") /\
  (forall n, 0 < n ->
     let i := unit_index n in
     format_size n = fmt_1f (scaled n i) ++ lit " " ++ nth i size_names [] /\
     (scaled n i ==
      inject_Z (float_of_int n) / inject_Z (1024 ^ Z.of_nat i))%Q /\
     (n < 2 ^ 53 -> float_of_int n = n) /\
     (i <= 4)%nat /\
     ((i < 4)%nat -> (scaled n i < inject_Z 1024)%Q) /\
     ((0 < i)%nat -> (inject_Z 1024 <= scaled n (i - 1))%Q)) /\
  (forall x, (0 <= x)%Q ->
     let t := round_tenths x in
     fmt_1f x =
       str_of_int (t / 10) ++ lit "." ++ [(48 + Z.to_N (t mod 10))%N] /\
     0 <= t /\
     (Qabs (inject_Z t - inject_Z 10 * x) <= 1 # 2)%Q).
Proof.
  split; [|split].
  - repeat split; vm_compute; reflexivity.
  - intros n Hn i.
    destruct (unit_index_bounds n Hn) as (H4 & Hlt & Hge).
    split; [|repeat split; auto].
    + unfold format_size.
      destruct (Z.eqb_spec n 0); [lia|].
      destruct (size_loop_unit n Hn) as (v & -> & Hv).
      unfold fmt_num_1f. rewrite Hv, Nat2Z.id. reflexivity.
    + apply scaled_value.
    + intros Hsmall. apply float_of_int_small. lia.
  - intros x Hx t. split; [now apply fmt_1f_shape|].
    now apply round_tenths_nearest.
Qed.

Lemma format_size_units_witness :
  0 < 1536 /\ (0 <= 3 # 2)%Q /\
  format_size 1536 =
    fmt_1f (scaled 1536 1) ++ lit " " ++ lit "KB" /\
  fmt_1f (3 # 2) = lit "1.5".
Proof.
  split; [reflexivity|]. split; [discriminate|]. split.
  - exact (proj1 (proj1 (proj2 format_size_units) 1536 eq_refl)).
  - exact (proj1 (proj2 (proj2 format_size_units) (3 # 2)
                        ltac:(discriminate))).
Defined.

Section Rendering.
Context {L : StrLower}.

(** C8 (as amended).  With a width of at least three, the text
    renderer writes the header line as composed, an empty line, and
    then, for each node of the tree in order, its composed line cut
    to the width: a composed line longer than the width comes out as
    its first [max_width - 3] characters followed by three dots, of
    total length [max_width], and any other comes out unchanged; so
    no line of a node is longer than the width. *)
Theorem text_lines_truncated self t style show_size show_count max_width :
  3 <= max_width ->
  tree_data self = Some t ->
  let sc := dict_get styles style unicode_style in
  render_text_tree self style show_size show_count max_width =
    join [10%N]
      (header_line self t show_size show_count :: [] ::
       map (truncate max_width)
           (composed_lines t [] true sc show_size show_count)) /\
  (forall line,
      max_width < len line ->
      truncate max_width line =
        firstn (Z.to_nat (max_width - 3)) line ++ lit "..." /\
      len (truncate max_width line) = max_width /\
      endswith (truncate max_width line) (lit "...") = true) /\
  (forall line, len line <= max_width -> truncate max_width line = line) /\
  Forall (fun line => len line <= max_width)
         (map (truncate max_width)
              (composed_lines t [] true sc show_size show_count)).
Proof.
  intros H3 Ht sc. split; [|split; [|split]].
  - unfold render_text_tree. rewrite Ht. now rewrite text_lines_eq.
  - intros line Hlong. now apply truncate_cuts.
  - intros line Hfit. now apply truncate_fits.
  - apply Forall_forall. intros line Hin. apply in_map_iff in Hin.
    destruct Hin as (l0 & <- & _). now apply truncate_bounded.
Qed.

(** C9. A scan of a path that does not exist, or is not a directory,
    made on an object that holds the tree of an earlier scan, raises
    and leaves the object with the three counters at zero, with
    [root_path] set to the new resolved path and with [tree_data]
    still the earlier tree; the text rendered from that object shows
    the earlier tree under a header of zero counters. *)
Theorem failed_scan_keeps_old_tree
    fs0 self0 path0 opts0 t0 self fs path opts :
  scan_directory fs0 self0 path0 opts0 = Returned t0 self ->
  (lookup fs (resolve fs path) = None \/
   exists o, lookup fs (resolve fs path) = Some o /\ is_dir o = false) ->
  let self' :=
    {| tree_data := Some t0; root_path := Some (resolve fs path);
       file_count := 0; folder_count := 0; total_size := 0 |} in
  (exists e, scan_directory fs self path opts = Raised e self') /\
  forall style max_width,
    render_text_tree self' style true true max_width =
    join [10%N]
      ((folder_icon ++ lit " " ++
        match node_name t0 with
        | [] => path_str (resolve fs path)
        | nm => nm
        end ++ lit " (0 folders, 0 files, 0 B)") ::
       [] ::
       map (truncate max_width)
           (composed_lines t0 [] true
              (dict_get styles style unicode_style) true true)).
Proof.
  intros Hprev Hbad self'.
  assert (Htree : tree_data self = Some t0).
  { destruct (scan_directory_built _ _ _ _ _ _ Hprev) as (s1 & _ & ->).
    reflexivity. }
  assert (Hreset : reset self (resolve fs path) = self').
  { unfold reset, self'. now rewrite Htree. }
  split.
  - destruct (scan_root_errors fs self path opts) as (Hnone & Hnot & _).
    destruct Hbad as [Hl|(o & Hl & Hd)].
    + eexists. rewrite (Hnone Hl), Hreset. reflexivity.
    + eexists. rewrite (Hnot o Hl Hd), Hreset. reflexivity.
  - intros style max_width. unfold render_text_tree. cbn [tree_data self'].
    rewrite text_lines_eq. reflexivity.
Qed.

(** C10. On an object on which no scan has succeeded,
    [render_text_tree] returns its fixed message and raises nothing,
    while [export_html] and [export_json] raise [ValueError] and
    write no file. *)
Theorem no_tree_data_yet
    (html : visualizer -> node -> pystr -> pystr)
    (json : visualizer -> node -> pystr) self :
  never_scanned self ->
  (forall style show_size show_count max_width,
      render_text_tree self style show_size show_count max_width =
      lit "No tree data available. Please scan a directory first.") /\
  (forall filename title,
      export_html html self filename title =
      ExportRaised (ValueError (lit "No tree data available"))) /\
  (forall filename,
      export_json json self filename =
      ExportRaised (ValueError (lit "No tree data available"))).
Proof.
  intros Hn. apply never_scanned_no_tree in Hn.
  unfold render_text_tree, export_html, export_json. rewrite Hn.
  repeat split.
Qed.
End Rendering.

Lemma text_lines_truncated_witness :
  exists t self,
    scan_directory (L := ascii_lower) sample_fs init (lit "/proj")
                   default_options = Returned t self /\
    3 <= 12 /\ tree_data self = Some t /\
    render_text_tree (L := ascii_lower) self (lit "ascii") true true 12 =
      join [10%N]
        (header_line self t true true :: [] ::
         map (truncate 12)
             (composed_lines (L := ascii_lower) t [] true ascii_style
                             true true)).
Proof.
  eexists. eexists. split; [vm_compute; reflexivity|].
  split; [lia|]. split; [reflexivity|].
  refine (proj1 (text_lines_truncated (L := ascii_lower) _ _ (lit "ascii")
                   true true 12 _ _)); [lia|reflexivity].
Defined.

(** C8, as stated, fails on the header: rendered at width 10, the scan
    of [/proj] has a first line of 35 characters that does not end in
    three dots. *)
Lemma header_not_truncated_counterexample :
  ~ (forall self t style show_size show_count max_width line,
        tree_data self = Some t ->
        In line (text_lines (L := ascii_lower) self t style
                            show_size show_count max_width) ->
        max_width < len line ->
        endswith line (lit "...") = true /\ len line = max_width).
Proof.
  intros H.
  pose (s := state_after
               (scan_directory (L := ascii_lower) sample_fs init
                               (lit "/proj") default_options)).
  destruct (tree_data s) as [t|] eqn:Et; [|vm_compute in Et; discriminate].
  specialize (H s t (lit "ascii") true true 10
                (header_line s t true true) Et).
  rewrite text_lines_eq in H. specialize (H (or_introl eq_refl)).
  vm_compute in Et. inversion Et; subst t. clear Et.
  destruct H as [_ Hlen]; [vm_compute; reflexivity|].
  vm_compute in Hlen. discriminate.
Qed.

Lemma failed_scan_keeps_old_tree_witness :
  exists t0 self,
    scan_directory (L := ascii_lower) sample_fs init (lit "/proj")
                   default_options = Returned t0 self /\
    lookup sample_fs (resolve sample_fs (lit "/nope")) = None /\
    (exists e,
        scan_directory (L := ascii_lower) sample_fs self (lit "/nope")
                       default_options =
        Raised e {| tree_data := Some t0; root_path := Some [lit "nope"];
                    file_count := 0; folder_count := 0; total_size := 0 |}).
Proof.
  eexists. eexists. split; [vm_compute; reflexivity|].
  split; [reflexivity|].
  refine (proj1 (failed_scan_keeps_old_tree (L := ascii_lower)
                   sample_fs init (lit "/proj") default_options _ _
                   sample_fs (lit "/nope") default_options _ _)).
  - vm_compute. reflexivity.
  - left. reflexivity.
Defined.

Lemma no_tree_data_yet_witness :
  never_scanned (L := ascii_lower) (reset init [lit "nope"]) /\
  render_text_tree (L := ascii_lower) (reset init [lit "nope"])
                   (lit "unicode") true true 100 =
    lit "No tree data available. Please scan a directory first." /\
  export_html (fun _ _ title => title) (reset init [lit "nope"])
              (lit "tree.html") (lit "Directory Tree") =
    ExportRaised (ValueError (lit "No tree data available")) /\
  export_json (fun _ _ => []) (reset init [lit "nope"]) (lit "tree.json") =
    ExportRaised (ValueError (lit "No tree data available")).
Proof.
  assert (Hn : never_scanned (L := ascii_lower) (reset init [lit "nope"])).
  { apply (never_scanned_failed sample_fs init (lit "/nope") default_options
             (FileNotFoundError (lit "Directory not found: /nope"))).
    - apply never_scanned_init.
    - reflexivity. }
  split; [exact Hn|].
  destruct (no_tree_data_yet (L := ascii_lower) (fun _ _ title => title)
              (fun _ _ => []) _ Hn) as (Hr & Hh & Hj).
  split; [apply Hr|]. split; [apply Hh|apply Hj].
Defined.

(* ================================================================== *)
(** * Worked examples *)

Example format_size_ties_to_even :
  format_size 1280 = lit "1.2 KB" /\ format_size 1408 = lit "1.4 KB".
Proof. split; vm_compute; reflexivity. Qed.

Example format_size_shows_1024_below_a_step :
  format_size 1048575 = lit "1024.0 KB".
Proof. vm_compute. reflexivity. Qed.

Example format_size_caps_at_TB :
  format_size (2 ^ 60) = lit "1048576.0 TB".
Proof. vm_compute. reflexivity. Qed.

Example float_of_int_rounds_to_even :
  float_of_int (2 ^ 53 + 1) = 2 ^ 53 /\
  float_of_int (2 ^ 53 + 3) = 2 ^ 53 + 4.
Proof. split; vm_compute; reflexivity. Qed.

Example suffix_examples :
  suffix (lit "a.tar.gz") = lit ".gz" /\
  suffix (lit ".env") = [] /\
  suffix (lit "notes.") = [] /\
  suffix (lit "README") = [].
Proof. repeat split. Qed.

Example sort_puts_directories_first :
  map fst
      (sort_by (item_key (L := ascii_lower))
               [(lit "b.txt", file_of_size 1); (lit "Zed", FsDir None);
                (lit "A.txt", file_of_size 1); (lit "alpha", FsDir None)]) =
  [lit "alpha"; lit "Zed"; lit "A.txt"; lit "b.txt"].
Proof. vm_compute. reflexivity. Qed.

Example scan_proj_counters :
  match scan_directory (L := ascii_lower) sample_fs init (lit "/proj")
                       default_options with
  | Returned t self =>
      (file_count self, folder_count self, total_size self) = (3, 2, 37) /\
      map node_name (node_children t) = [lit "sub"; lit "a.txt"]
  | Raised _ _ => False
  end.
Proof. vm_compute. split; reflexivity. Qed.

Example scan_proj_depth_one :
  match scan_directory (L := ascii_lower) sample_fs init (lit "/proj")
                       (depth_limited 1) with
  | Returned t self =>
      map (fun c => (node_name c, node_children c, node_size c))
          (node_children t) =
      [(lit "sub", [], 0); (lit "a.txt", [], 10)] /\
      (file_count self, folder_count self, total_size self) = (1, 1, 10)
  | Raised _ _ => False
  end.
Proof. vm_compute. split; reflexivity. Qed.

Example render_proj_width_12 :
  match scan_directory (L := ascii_lower) sample_fs init (lit "/proj")
                       default_options with
  | Returned t self =>
      map len (text_lines (L := ascii_lower) self t (lit "ascii")
                          true true 12) =
      [35; 0; 12; 12; 12; 12; 12; 12]
  | Raised _ _ => False
  end.
Proof. vm_compute. reflexivity. Qed.

(** A width below three leaves no room for the dots: the slice bound
    [max_width - 3] is negative and counts from the end. *)
Example truncate_width_two :
  truncate 2 (lit "abcdef") = lit "abcde...".
Proof. vm_compute. reflexivity. Qed.

(* ================================================================== *)
(** * Further properties of the code *)

(** ** The order of the children *)

Lemma StronglySorted_snoc {A : Type} (R : A -> A -> Prop) (l : list A)
    (x : A) :
  StronglySorted R l -> Forall (fun y => R y x) l ->
  StronglySorted R (l ++ [x]).
Proof.
  induction 1 as [|y l Hs IH Hall]; intros Hx; simpl.
  - repeat constructor.
  - inversion_clear Hx as [|? ? Hy Hl]. constructor; [now apply IH|].
    apply Forall_app. split; [exact Hall|]. now constructor.
Qed.

Section ChildrenOrder.
Context {L : StrLower}.
Variable opts : scan_options.

Lemma ordered_directory name path size cs fc dc :
  ordered (Directory name path size cs fc dc) <->
  StronglySorted (key_le node_key) cs /\ Forall ordered cs.
Proof.
  unfold ordered. simpl. split.
  - intros H. inversion_clear H as [|? ? Hs Hrest]. split; [exact Hs|].
    apply Forall_forall. intros c Hc. apply Forall_forall. intros x Hx.
    rewrite Forall_forall in Hrest. apply Hrest. apply in_flat_map. eauto.
  - intros [Hs Hall]. constructor; [exact Hs|].
    apply Forall_forall. intros x Hx. apply in_flat_map in Hx.
    destruct Hx as (c & Hc & Hx). rewrite Forall_forall in Hall.
    specialize (Hall c Hc). unfold ordered in Hall.
    rewrite Forall_forall in Hall. now apply Hall.
Qed.

Lemma scan_item_ordered path d rec name obj nd s :
  is_directory nd = true -> ordered nd ->
  Forall (below (name, obj)) (node_children nd) ->
  (forall p' d' s',
      ordered (fst (rec p' d' s')) /\
      is_directory (fst (rec p' d' s')) = true /\
      node_name (fst (rec p' d' s')) = path_name p') ->
  let nd' := fst (scan_item opts path d rec (name, obj) (nd, s)) in
  is_directory nd' = true /\ ordered nd' /\
  Forall (below (name, obj)) (node_children nd').
Proof.
  intros Hdir Hord Hbelow Hrec.
  destruct nd as [nm p sz cs fc dc|]; [|discriminate].
  apply ordered_directory in Hord. destruct Hord as [Hs Hall].
  cbn [node_children] in Hbelow.
  unfold scan_item.
  assert (Hsame : is_directory (Directory nm p sz cs fc dc) = true /\
                  ordered (Directory nm p sz cs fc dc) /\
                  Forall (below (name, obj)) cs).
  { split; [reflexivity|]. split; [|exact Hbelow].
    apply ordered_directory. now split. }
  destruct (skip_hidden opts name); [exact Hsame|].
  destruct (is_dir obj) eqn:Hd.
  - destruct (Hrec (path_child path name) (d + 1) s) as (Ho & Hcd & Hcn).
    destruct (rec (path_child path name) (d + 1) s) as [child s1].
    cbn [fst] in *. cbn [add_directory fst is_directory node_children].
    assert (Hkey : node_key child = item_key (name, obj)).
    { unfold node_key, item_key. cbn [fst snd]. rewrite Hcd, Hcn.
      unfold path_child, path_name. rewrite last_last.
      destruct obj; try discriminate. reflexivity. }
    split; [reflexivity|]. split.
    + apply ordered_directory. split.
      * apply StronglySorted_snoc; [exact Hs|].
        eapply Forall_impl; [|exact Hbelow].
        intros c Hc. unfold key_le, below in *. now rewrite Hkey.
      * apply Forall_app. split; [exact Hall|]. now constructor.
    + apply Forall_app. split; [exact Hbelow|]. constructor; [|constructor].
      unfold below. rewrite Hkey. unfold key_leb.
      destruct (fst (item_key (name, obj))); apply str_leb_refl.
  - destruct (include_files opts && is_file obj); [|exact Hsame].
    destruct obj as [[st|]|e|]; try exact Hsame.
    destruct (extension_rejects opts name); [exact Hsame|].
    destruct (size_rejects opts (st_size st)); [exact Hsame|].
    cbn [add_file fst is_directory node_children].
    set (f := File name (path_str (path_child path name)) (st_size st)
                   (suffix name) (st_mtime st)).
    assert (Hkey : node_key f = item_key (name, FsFile (Some st)))
      by reflexivity.
    split; [reflexivity|]. split.
    + apply ordered_directory. split.
      * apply StronglySorted_snoc; [exact Hs|].
        eapply Forall_impl; [|exact Hbelow].
        intros c Hc. unfold key_le, below in *. now rewrite Hkey.
      * apply Forall_app. split; [exact Hall|]. constructor; [|constructor].
        unfold ordered. simpl. repeat constructor.
    + apply Forall_app. split; [exact Hbelow|]. constructor; [|constructor].
      unfold below. rewrite Hkey. unfold key_leb. simpl. apply str_leb_refl.
Qed.

Lemma scan_items_ordered path d rec items :
  StronglySorted (key_le item_key) items ->
  Forall (fun e => forall p' d' s',
              ordered (fst (rec (snd e) p' d' s')) /\
              is_directory (fst (rec (snd e) p' d' s')) = true /\
              node_name (fst (rec (snd e) p' d' s')) = path_name p')
         items ->
  forall nd s,
    is_directory nd = true -> ordered nd ->
    Forall (fun c => Forall (fun item => below item c) items)
           (node_children nd) ->
    ordered (fst (scan_items opts path d rec items (nd, s))).
Proof.
  induction 1 as [|[name obj] items Hs IH Hle];
    intros Hrec nd s Hdir Hord Hbelow; [exact Hord|].
  rewrite scan_items_cons. inversion_clear Hrec as [|? ? Hr1 Hr2].
  cbn [snd] in Hr1 |- *.
  assert (Hb1 : Forall (below (name, obj)) (node_children nd)).
  { eapply Forall_impl; [|exact Hbelow].
    intros c Hc. now inversion_clear Hc. }
  destruct (scan_item_ordered path d (rec obj) name obj nd s Hdir Hord Hb1
              Hr1) as (Hdir' & Hord' & Hb').
  destruct (scan_item opts path d (rec obj) (name, obj) (nd, s))
    as [nd' s']. cbn [fst] in *.
  apply IH; auto.
  eapply Forall_impl; [|exact Hb'].
  intros c Hc. eapply Forall_impl; [|exact Hle].
  intros item Hitem. unfold below, key_le in *.
  eapply key_leb_trans; eassumption.
Qed.

Lemma _scan_recursive_ordered (dir : fsobj) : forall path d s,
  ordered (fst (_scan_recursive opts dir path d s)) /\
  is_directory (fst (_scan_recursive opts dir path d s)) = true /\
  node_name (fst (_scan_recursive opts dir path d s)) = path_name path.
Proof.
  assert (Hnew : forall path, ordered (new_node path)).
  { intros path. unfold ordered, new_node. simpl. repeat constructor. }
  intros path d s. split.
  - revert path d s.
    induction dir as [st| | |entries IH] using fsobj_tree_ind;
      intros path d s; rewrite _scan_recursive_eq;
      destruct (depth_reached opts d); try apply Hnew.
    apply scan_items_ordered; try apply Hnew; try reflexivity.
    + apply sort_by_sorted.
    + apply sort_by_Forall.
      eapply Forall_impl; [|exact IH].
      intros e He p' d' s'. split; [apply He|].
      destruct (built_is_directory opts _ _ _ _ _
                  (_scan_recursive_built opts (snd e) p' d' s'))
        as (sz & cs & fc & dc & ->). split; reflexivity.
    + constructor.
  - destruct (built_is_directory opts _ _ _ _ _
                (_scan_recursive_built opts dir path d s))
      as (sz & cs & fc & dc & ->). split; reflexivity.
Qed.
End ChildrenOrder.

(** X1. In every tree a scan returns, the children of each directory
    node stand in the order of the sort: the directories before the
    files, and within each kind by lower-cased name, code point by
    code point. *)
Theorem scan_children_in_order {L : StrLower} fs self path opts t self' :
  scan_directory fs self path opts = Returned t self' ->
  (forall x, In x (nodes t) ->
     StronglySorted (key_le node_key) (node_children x)) /\
  (forall a b,
     key_le node_key a b <->
     (is_directory a = true /\ is_directory b = false) \/
     (is_directory a = is_directory b /\
      str_leb (lower (node_name a)) (lower (node_name b)) = true)).
Proof.
  intros Hscan. split.
  - apply scan_directory_returned in Hscan.
    destruct Hscan as (dir & _ & _ & -> & _).
    destruct (_scan_recursive_ordered opts dir (resolve fs path) 0
                (reset self (resolve fs path))) as (Hord & _).
    intros x Hx. unfold ordered in Hord. rewrite Forall_forall in Hord.
    now apply Hord.
  - intros a b. unfold key_le, key_leb, node_key. cbn [fst snd].
    destruct (is_directory a), (is_directory b); cbn [negb];
      intuition congruence.
Qed.

Lemma scan_children_in_order_witness :
  exists t self',
    scan_directory (L := ascii_lower) sample_fs init (lit "/proj")
                   default_options = Returned t self' /\
    map node_name (node_children t) = [lit "sub"; lit "a.txt"] /\
    forall x, In x (nodes t) ->
      StronglySorted (key_le (node_key (L := ascii_lower)))
                     (node_children x).
Proof.
  eexists. eexists. split; [vm_compute; reflexivity|].
  split; [reflexivity|].
  refine (proj1 (scan_children_in_order (L := ascii_lower) sample_fs init
                   (lit "/proj") default_options _ _ _)).
  vm_compute. reflexivity.
Defined.

(** ** What the file filters let through *)

Lemma directories_only_no_files (n : node) :
  (forall x, In x (nodes n) -> is_directory x = true) ->
  files_below n = 0 /\ files_total n = 0.
Proof.
  induction n as [name path size ext modified
                 |name path size children fc dc IH] using node_tree_ind;
    intros H.
  - specialize (H _ (or_introl eq_refl)). discriminate.
  - assert (Hc : forall c, In c children ->
                 forall x, In x (nodes c) -> is_directory x = true).
    { intros c Hc x Hx. apply H. apply nodes_directory. eauto. }
    clear H. simpl.
    induction children as [|c cs IHcs]; simpl; [split; reflexivity|].
    inversion_clear IH as [|? ? Hhead Htail].
    destruct (Hhead (Hc c (or_introl eq_refl))) as [Hf Ht].
    destruct (IHcs Htail) as [Hfs Hts].
    { intros c' Hc'. apply Hc. now right. }
    rewrite (Hc c (or_introl eq_refl) c
               (proj2 (nodes_root_or_descendant c c) (or_introl eq_refl))).
    split; lia.
Qed.

(** X2. With [include_files] false, the tree a scan returns holds
    directory nodes only, and the scan counts no file and no byte. *)
Theorem scan_directories_only {L : StrLower} fs self path opts t self' :
  include_files opts = false ->
  scan_directory fs self path opts = Returned t self' ->
  (forall x, In x (nodes t) -> is_directory x = true) /\
  file_count self' = 0 /\ total_size self' = 0 /\ node_size t = 0.
Proof.
  intros Hi Hscan.
  destruct (scan_directory_built _ _ _ _ _ _ Hscan) as (s1 & Hb & ->).
  assert (Hdirs : forall x, In x (nodes t) -> is_directory x = true).
  { intros x Hx. apply nodes_root_or_descendant in Hx.
    destruct Hx as [->|Hx].
    - destruct (built_is_directory opts _ _ _ _ _ Hb)
        as (sz & cs & fc & dc & ->). reflexivity.
    - destruct (built_passed opts _ _ _ _ _ Hb x Hx) as [_ Hf].
      destruct (is_directory x); [reflexivity|].
      destruct (Hf eq_refl) as (Hinc & _). congruence. }
  split; [exact Hdirs|].
  destruct (directories_only_no_files t Hdirs) as [Hfb Hft].
  destruct (built_counters opts _ _ _ _ _ Hb) as (Hf & _ & Hs & _).
  destruct (built_counts opts _ _ _ _ _ Hb) as (Hfc & _).
  assert (Hsz : node_size t = files_total t).
  { apply local_sums_files_total.
    apply (built_local_sums opts _ _ _ _ _ Hb). }
  simpl in *. repeat split; lia.
Qed.

Lemma scan_directories_only_witness :
  exists t self',
    include_files directories_only = false /\
    scan_directory (L := ascii_lower) sample_fs init (lit "/proj")
                   directories_only = Returned t self' /\
    folder_count self' = 2 /\
    (forall x, In x (nodes t) -> is_directory x = true) /\
    file_count self' = 0 /\ total_size self' = 0 /\ node_size t = 0.
Proof.
  eexists. eexists. split; [reflexivity|].
  split; [vm_compute; reflexivity|]. split; [reflexivity|].
  refine (scan_directories_only (L := ascii_lower) sample_fs init
            (lit "/proj") directories_only _ _ eq_refl _).
  vm_compute. reflexivity.
Defined.

(** X3. With a size filter, the size of every file node of the tree
    lies between the two bounds, the bounds included; under an infinite
    lower bound the tree has no file node at all. *)
Theorem scan_sizes_within_bounds {L : StrLower}
    fs self path opts lo hi t self' :
  size_filter opts = Some (lo, hi) ->
  scan_directory fs self path opts = Returned t self' ->
  forall x, In x (nodes t) -> is_directory x = false ->
    (forall a, lo = Finite a -> (a <= inject_Z (node_size x))%Q) /\
    (forall b, hi = Finite b -> (inject_Z (node_size x) <= b)%Q) /\
    lo <> PosInf.
Proof.
  intros Hsf Hscan x Hx Hfile.
  destruct (scan_directory_built _ _ _ _ _ _ Hscan) as (s1 & Hb & _).
  apply nodes_root_or_descendant in Hx. destruct Hx as [->|Hx].
  { destruct (built_is_directory opts _ _ _ _ _ Hb)
      as (sz & cs & fc & dc & ->). discriminate. }
  destruct (built_passed opts _ _ _ _ _ Hb x Hx) as [_ Hf].
  destruct (Hf Hfile) as (_ & _ & Hs & _).
  unfold size_rejects in Hs. rewrite Hsf in Hs.
  apply orb_false_iff in Hs. destruct Hs as [Hlo Hhi].
  split; [|split].
  - intros a ->. simpl in Hlo. apply negb_false_iff in Hlo.
    now apply Qle_bool_iff.
  - intros b ->. simpl in Hhi. apply negb_false_iff in Hhi.
    now apply Qle_bool_iff.
  - intros ->. discriminate.
Qed.

Lemma scan_sizes_within_bounds_witness :
  exists t self',
    scan_directory (L := ascii_lower) sample_fs init (lit "/proj")
                   (sizes_between 10 20) = Returned t self' /\
    (file_count self', total_size self') = (2, 30) /\
    forall x, In x (nodes t) -> is_directory x = false ->
      (forall a, Finite (inject_Z 10) = Finite a ->
                 (a <= inject_Z (node_size x))%Q) /\
      (forall b, Finite (inject_Z 20) = Finite b ->
                 (inject_Z (node_size x) <= b)%Q) /\
      Finite (inject_Z 10) <> PosInf.
Proof.
  eexists. eexists. split; [vm_compute; reflexivity|].
  split; [reflexivity|].
  refine (scan_sizes_within_bounds (L := ascii_lower) sample_fs init
            (lit "/proj") (sizes_between 10 20) _ _ _ _ eq_refl _).
  vm_compute. reflexivity.
Defined.

(** ** What a scan does not leave out *)

Section Represented.
Context {L : StrLower}.
Variable opts : scan_options.


End Represented.


(** ** Scans and the object they run on *)


Section ObjectState.
Context {L : StrLower}.
Variable opts : scan_options.




End ObjectState.


(** ** Entries that cannot be read *)

Section Unreadable.
Context {L : StrLower}.
Variable opts : scan_options.

Lemma readable_part_dir (entries : list (pystr * fsobj)) :
  readable_part (FsDir (Some entries)) =
  FsDir (Some (map readable_image (filter readable_entry entries))).
Proof.
  simpl. do 2 f_equal.
  induction entries as [|[name obj] l IH]; simpl; [reflexivity|].
  unfold readable_entry at 1. cbn [snd].
  destruct obj as [[st|]|e|]; simpl; rewrite IH; reflexivity.
Qed.

Lemma is_file_readable (o : fsobj) : is_file (readable_part o) = is_file o.
Proof. destruct o as [st|[entries|]|]; reflexivity. Qed.

Lemma is_dir_readable (o : fsobj) : is_dir (readable_part o) = is_dir o.
Proof. destruct o as [st|[entries|]|]; reflexivity. Qed.

Lemma item_key_readable (e : pystr * fsobj) :
  item_key (readable_image e) = item_key e.
Proof.
  unfold item_key, readable_image. simpl. now rewrite is_file_readable.
Qed.

Lemma scan_items_readable path d rec (items : list (pystr * fsobj)) :
  Forall (fun e => forall p' d' s',
              rec (readable_part (snd e)) p' d' s' = rec (snd e) p' d' s')
         items ->
  forall acc,
    scan_items opts path d rec
               (map readable_image (filter readable_entry items)) acc =
    scan_items opts path d rec items acc.
Proof.
  induction 1 as [|[name obj] items Hrec _ IH]; intros [nd s]; [reflexivity|].
  rewrite scan_items_cons. simpl filter. unfold readable_entry at 1.
  cbn [fst snd] in *.
  destruct obj as [[st|]|entries|].
  - simpl map. rewrite scan_items_cons, IH. reflexivity.
  - rewrite IH. f_equal. unfold scan_item.
    destruct (skip_hidden opts name); [reflexivity|]. simpl.
    now destruct (include_files opts).
  - simpl map. rewrite scan_items_cons, IH. f_equal.
    unfold readable_image. cbn [fst snd]. unfold scan_item.
    rewrite is_dir_readable, Hrec. reflexivity.
  - rewrite IH. f_equal. unfold scan_item.
    destruct (skip_hidden opts name); [reflexivity|]. simpl.
    now rewrite andb_false_r.
Qed.

Lemma _scan_recursive_readable (dir : fsobj) : forall path d s,
  _scan_recursive opts (readable_part dir) path d s =
  _scan_recursive opts dir path d s.
Proof.
  induction dir as [st| | |entries IH] using fsobj_tree_ind;
    intros path d s; try reflexivity.
  rewrite readable_part_dir, !_scan_recursive_eq.
  destruct (depth_reached opts d); [reflexivity|].
  rewrite (sort_by_map item_key item_key readable_image)
    by apply item_key_readable.
  rewrite sort_by_filter.
  apply scan_items_readable. apply sort_by_Forall. exact IH.
Qed.

(** X6. A scan cannot tell what it fails to read from what is not
    there: on the file system without the files whose [stat] raises
    and without the entries that are neither file nor directory, and
    where every directory that cannot be listed is empty, every scan
    has the same outcome, tree, counters and exception alike. *)
Theorem scan_skips_the_unreadable fs self path :
  scan_directory (readable_fs fs) self path opts =
  scan_directory fs self path opts.
Proof.
  unfold scan_directory. simpl.
  destruct (lookup fs (resolve fs path)) as [dir|]; simpl; [|reflexivity].
  rewrite is_dir_readable.
  destruct (is_dir dir); simpl; [|reflexivity].
  now rewrite _scan_recursive_readable.
Qed.
End Unreadable.

(** ** Counting the whole tree *)

Section WholeTree.
Context {L : StrLower}.
Variable opts : scan_options.
Hypothesis no_limit : max_depth opts = None.
Hypothesis with_files : include_files opts = true.
Hypothesis any_extension : extensions opts = None.
Hypothesis any_size : size_filter opts = None.

Lemma names_shown_dir entries :
  names_shown opts (FsDir (Some entries)) = true <->
  Forall (fun e => skip_hidden opts (fst e) = false /\
                   names_shown opts (snd e) = true) entries.
Proof.
  simpl. induction entries as [|[name obj] l IH]; simpl.
  - split; [constructor|reflexivity].
  - rewrite !andb_true_iff, negb_true_iff, IH. split.
    + intros [[H1 H2] H3]. now constructor.
    + intros H. inversion_clear H as [|? ? [H1 H2] H3]. auto.
Qed.

Lemma scan_items_counts path d rec items :
  Forall (fun e =>
            skip_hidden opts (fst e) = false /\
            (is_dir (snd e) = true ->
             forall p' d' s',
               counts_fs (snd e) (fst (rec (snd e) p' d' s'))))
         items ->
  forall nd s,
    is_directory nd = true ->
    let nd' := fst (scan_items opts path d rec items (nd, s)) in
    is_directory nd' = true /\
    node_file_count nd' =
      node_file_count nd +
      fold_right (fun e acc => entry_files e + acc) 0 items /\
    node_folder_count nd' =
      node_folder_count nd +
      fold_right (fun e acc => entry_dirs e + acc) 0 items /\
    node_size nd' =
      node_size nd + fold_right (fun e acc => entry_size e + acc) 0 items.
Proof.
  induction 1 as [|[name obj] items [Hvis Hrec] _ IH]; intros nd s Hdir.
  - simpl. repeat split; [exact Hdir|lia|lia|lia].
  - rewrite scan_items_cons. cbn [fst snd] in *.
    assert (Hstep :
      let nd1 := fst (scan_item opts path d (rec obj) (name, obj) (nd, s)) in
      is_directory nd1 = true /\
      node_file_count nd1 = node_file_count nd + entry_files (name, obj) /\
      node_folder_count nd1 = node_folder_count nd + entry_dirs (name, obj) /\
      node_size nd1 = node_size nd + entry_size (name, obj)).
    { destruct nd as [nm p sz cs fc dc|]; [|discriminate].
      unfold scan_item, entry_files, entry_dirs, entry_size,
        extension_rejects, size_rejects.
      rewrite Hvis, with_files, any_extension, any_size. cbn [andb snd].
      destruct obj as [[st|]|entries|]; cbn [is_dir is_file];
        try (simpl; repeat split; lia).
      destruct (Hrec eq_refl (path_child path name) (d + 1) s)
        as (Hf & Hd & Hs).
      destruct (rec (FsDir entries) (path_child path name) (d + 1) s)
        as [child s1].
      cbn [fst] in *. simpl in Hf, Hd, Hs |- *. repeat split; lia. }
    destruct (scan_item opts path d (rec obj) (name, obj) (nd, s))
      as [nd1 s1]. cbn [fst] in Hstep.
    destruct Hstep as (Hd1 & Hf1 & Hdc1 & Hs1).
    destruct (IH nd1 s1 Hd1) as (Hd2 & Hf2 & Hdc2 & Hs2).
    cbn zeta in *. simpl fold_right. repeat split; [exact Hd2|lia|lia|lia].
Qed.

Lemma _scan_recursive_counts (dir : fsobj) : forall path d s,
  names_shown opts dir = true ->
  is_dir dir = true ->
  counts_fs dir (fst (_scan_recursive opts dir path d s)).
Proof.
  induction dir as [st| | |entries IH] using fsobj_tree_ind;
    intros path d s Hshown Hdir; try discriminate;
    rewrite _scan_recursive_eq; unfold depth_reached; rewrite no_limit.
  - repeat split.
  - apply names_shown_dir in Hshown.
    destruct (scan_items_counts path d (_scan_recursive opts)
                (sort_by item_key entries)) with (nd := new_node path) (s := s)
      as (_ & Hf & Hd & Hs); [|reflexivity|].
    { apply sort_by_Forall. rewrite Forall_forall in *.
      intros e He. destruct (Hshown e He) as [Hv Hn].
      split; [exact Hv|]. intros Hed p' d' s'. now apply IH. }
    unfold counts_fs. rewrite Hf, Hd, Hs. simpl.
    rewrite (sum_perm entry_files _ _ (sort_by_perm item_key entries)).
    rewrite (sum_perm entry_dirs _ _ (sort_by_perm item_key entries)).
    rewrite (sum_perm entry_size _ _ (sort_by_perm item_key entries)).
    repeat split.
Qed.

Lemma names_shown_shown_part (o : fsobj) :
  names_shown opts (shown_part opts o) = true.
Proof.
  unfold shown_part.
  induction o as [st| | |entries IH] using fsobj_tree_ind;
    try (destruct (show_hidden opts); reflexivity).
  destruct (show_hidden opts) eqn:Hh.
  - apply names_shown_dir. eapply Forall_impl; [|exact IH].
    intros e He. split; [|exact He].
    unfold skip_hidden. now rewrite Hh.
  - rewrite prune_hidden_dir. apply names_shown_dir.
    apply Forall_forall. intros e He. apply in_map_iff in He.
    destruct He as (e0 & <- & He0). apply filter_In in He0.
    destruct He0 as [Hin Hvis]. unfold prune_entry. cbn [fst snd].
    split.
    + unfold skip_hidden. rewrite Hh. unfold visible_entry in Hvis.
      apply negb_true_iff in Hvis. unfold hidden_name in Hvis.
      now rewrite Hvis.
    + rewrite Forall_forall in IH. now apply IH.
Qed.

(** X7. Without depth limit and without file filter, a scan counts
    all there is to see: [file_count] is the number of files whose
    [stat] succeeds, [folder_count] the number of directories below the
    root and [total_size] the sum of the sizes of those files, in the
    file system as it is when hidden entries are shown, and without its
    hidden entries when they are not. *)
Theorem scan_counts_everything fs self path dir t self' :
  lookup fs (resolve fs path) = Some dir ->
  scan_directory fs self path opts = Returned t self' ->
  file_count self' = fs_files (shown_part opts dir) /\
  folder_count self' = fs_dirs (shown_part opts dir) /\
  total_size self' = fs_size (shown_part opts dir).
Proof.
  intros Hl Hscan.
  pose proof Hscan as Hret. apply scan_directory_returned in Hret.
  destruct Hret as (dir' & Hl' & Hd & Ht & _).
  rewrite Hl in Hl'. inversion Hl'; subst dir'. clear Hl'.
  destruct (scan_directory_built _ _ _ _ _ _ Hscan) as (s1 & Hb & ->).
  destruct (built_counters opts _ _ _ _ _ Hb) as (Hf & Hdc & Hs & _).
  assert (Hc : counts_fs (shown_part opts dir) t).
  { rewrite Ht.
    assert (E : _scan_recursive opts dir (resolve fs path) 0
                  (reset self (resolve fs path)) =
                _scan_recursive opts (shown_part opts dir) (resolve fs path) 0
                  (reset self (resolve fs path))).
    { unfold shown_part. destruct (show_hidden opts) eqn:Hh; [reflexivity|].
      now rewrite _scan_recursive_pruned. }
    rewrite E. apply _scan_recursive_counts.
    - apply names_shown_shown_part.
    - unfold shown_part. destruct (show_hidden opts); [exact Hd|].
      now rewrite is_dir_prune. }
  destruct Hc as (Cf & Cd & Cs). simpl in *. repeat split; lia.
Qed.
End WholeTree.

Lemma scan_counts_everything_witness :
  exists dir t self',
    lookup sample_fs (resolve sample_fs (lit "/proj")) = Some dir /\
    scan_directory (L := ascii_lower) sample_fs init (lit "/proj") show_all
      = Returned t self' /\
    (fs_files (shown_part show_all dir), fs_dirs (shown_part show_all dir),
     fs_size (shown_part show_all dir)) = (5, 3, 45) /\
    file_count self' = fs_files (shown_part show_all dir) /\
    folder_count self' = fs_dirs (shown_part show_all dir) /\
    total_size self' = fs_size (shown_part show_all dir).
Proof.
  eexists. eexists. eexists. split; [vm_compute; reflexivity|].
  split; [vm_compute; reflexivity|]. split; [vm_compute; reflexivity|].
  refine (scan_counts_everything (L := ascii_lower) show_all
            eq_refl eq_refl eq_refl eq_refl sample_fs init (lit "/proj")
            _ _ _ _ _); vm_compute; reflexivity.
Defined.

(** ** Directories and the file filters *)


Section FileFilters.
Context {L : StrLower}.
Variables opts1 opts2 : scan_options.
Hypothesis same_depth : max_depth opts1 = max_depth opts2.
Hypothesis same_hidden : show_hidden opts1 = show_hidden opts2.




End FileFilters.


(** ** More on the text renderer *)

Section RenderOrder.
Context {L : StrLower}.
Variables (show_size show_count : bool).

Lemma composed_lines_preorder (sc : style_chars) (nd : node) :
  forall prefix is_last,
  Forall2 (line_of sc show_size show_count) (nodes nd)
          (composed_lines nd prefix is_last sc show_size show_count).
Proof.
  induction nd as [name path size ext modified
                  |name path size children fc dc IH] using node_tree_ind;
    intros prefix is_last.
  - simpl. constructor; [|constructor]. now exists prefix, is_last.
  - cbn [nodes composed_lines]. constructor; [now exists prefix, is_last|].
    set (new_prefix :=
           prefix ++ (if is_last then sc_space sc else sc_vertical sc)).
    clearbody new_prefix.
    induction children as [|c cs IHcs]; [constructor|].
    inversion_clear IH as [|? ? Hc Hcs].
    cbn [flat_map]. apply Forall2_app; [apply Hc|now apply IHcs].
Qed.

(** X9. The text of a scanned tree is the header line, an empty line
    and then one line per node of the tree, in pre-order (a directory,
    then its children in their stored order, each with what is below
    it): the line of each node, cut to the width. *)
Theorem render_one_line_per_node self t style max_width :
  tree_data self = Some t ->
  exists lines,
    render_text_tree self style show_size show_count max_width =
      join [10%N]
        (header_line self t show_size show_count :: [] ::
         map (truncate max_width) lines) /\
    Forall2 (line_of (dict_get styles style unicode_style)
                     show_size show_count)
            (nodes t) lines /\
    List.length (text_lines self t style show_size show_count max_width) =
      (2 + List.length (nodes t))%nat.
Proof.
  intros Ht.
  exists (composed_lines t [] true (dict_get styles style unicode_style)
                         show_size show_count).
  pose proof (composed_lines_preorder
                (dict_get styles style unicode_style) t [] true) as Hpre.
  split; [|split; [exact Hpre|]].
  - unfold render_text_tree. rewrite Ht. now rewrite text_lines_eq.
  - rewrite text_lines_eq. simpl. rewrite length_map.
    now rewrite (Forall2_length Hpre).
Qed.
End RenderOrder.

Lemma render_one_line_per_node_witness :
  exists t self,
    scan_directory (L := ascii_lower) sample_fs init (lit "/proj")
                   default_options = Returned t self /\
    tree_data self = Some t /\
    List.length (nodes t) = 6%nat /\
    List.length (text_lines (L := ascii_lower) self t (lit "ascii")
                            true true 100) = 8%nat.
Proof.
  eexists. eexists. split; [vm_compute; reflexivity|].
  split; [reflexivity|]. split; [reflexivity|].
  match goal with
  | |- List.length (text_lines ?s ?t _ _ _ _) = _ =>
      destruct (render_one_line_per_node (L := ascii_lower) true true s t
                  (lit "ascii") 100 eq_refl) as (lines & _ & _ & Hlen)
  end.
  exact Hlen.
Defined.

Lemma str_eqb_neq (a b : pystr) : a <> b -> str_eqb a b = false.
Proof.
  intros H. unfold str_eqb. now destruct (list_eq_dec N.eq_dec a b).
Qed.

(** X10. A style name that is none of [unicode], [ascii] and [simple]
    is drawn with the unicode glyphs: the text is the one rendered for
    [unicode]. *)
Theorem render_unknown_style_is_unicode {L : StrLower}
    self style show_size show_count max_width :
  style <> lit "ascii" -> style <> lit "simple" ->
  render_text_tree self style show_size show_count max_width =
  render_text_tree self (lit "unicode") show_size show_count max_width.
Proof.
  intros Ha Hs. unfold render_text_tree, text_lines.
  destruct (tree_data self) as [t|]; [|reflexivity].
  assert (E : dict_get styles style unicode_style = unicode_style).
  { unfold styles. cbn [dict_get].
    rewrite (str_eqb_neq (lit "ascii") style) by congruence.
    rewrite (str_eqb_neq (lit "simple") style) by congruence.
    now destruct (str_eqb (lit "unicode") style). }
  now rewrite E.
Qed.

Lemma render_unknown_style_is_unicode_witness :
  lit "fancy" <> lit "ascii" /\ lit "fancy" <> lit "simple" /\
  forall self,
    render_text_tree (L := ascii_lower) self (lit "fancy") true true 100 =
    render_text_tree (L := ascii_lower) self (lit "unicode") true true 100.
Proof.
  split; [discriminate|]. split; [discriminate|].
  intros self.
  apply (render_unknown_style_is_unicode (L := ascii_lower) self (lit "fancy")
           true true 100); discriminate.
Defined.

(** X11. A width below three does not shorten anything: a line longer
    than such a width comes out of the cut longer than the width still,
    ending in three dots; for a width of 0, 1 or 2 and a line of at
    least [3 - max_width] characters it comes out [max_width]
    characters longer than it went in. *)
Theorem truncate_below_three (max_width : Z) (line : pystr) :
  max_width < 3 -> max_width < len line ->
  max_width < len (truncate max_width line) /\
  endswith (truncate max_width line) (lit "...") = true /\
  (0 <= max_width -> 3 - max_width <= len line ->
   len (truncate max_width line) = len line + max_width).
Proof.
  intros H3 Hlong. unfold truncate, slice_to.
  destruct (Z.ltb_spec max_width (len line)); [|lia].
  destruct (Z.ltb_spec (max_width - 3) 0); [|lia].
  rewrite len_app. change (len (lit "...")) with 3.
  split; [|split].
  - unfold len. lia.
  - apply endswith_app.
  - intros Hpos Hl. unfold len in *. rewrite length_firstn. lia.
Qed.

Lemma truncate_below_three_witness :
  2 < 3 /\ 2 < len (lit "abcdef") /\
  truncate 2 (lit "abcdef") = lit "abcde..." /\
  len (truncate 2 (lit "abcdef")) = len (lit "abcdef") + 2.
Proof.
  split; [lia|]. split; [reflexivity|]. split; [reflexivity|].
  apply (proj2 (proj2 (truncate_below_three 2 (lit "abcdef")
                         ltac:(lia) ltac:(reflexivity)))).
  - lia.
  - discriminate.
Defined.

(** ** Sizes below zero *)

Lemma float_of_int_small_neg (n : Z) :
  - 2 ^ 53 < n < 0 -> float_of_int n = n.
Proof.
  intros [Hlo Hhi]. unfold float_of_int.
  destruct (Z.leb_spec (Z.log2 (Z.abs n) + 1) 53) as [_|Hb]; [reflexivity|].
  exfalso. assert (Z.log2 (Z.abs n) < 53); [|lia].
  apply Z.log2_lt_pow2; lia.
Qed.

(** X12. A size below zero is never stepped up to a larger unit: it is
    written with its sign, one decimal and the unit B, also when its
    magnitude is 1024 or more (the sizes here are those a double holds
    exactly). *)
Theorem format_size_negative (n : Z) :
  - 2 ^ 53 < n < 0 ->
  format_size n = lit "-" ++ str_of_int (- n) ++ lit ".0 B".
Proof.
  intros Hn. unfold format_size.
  destruct (Z.eqb_spec n 0); [lia|].
  cbn [size_loop List.length size_names ge_1024].
  destruct (Z.leb_spec 1024 n); [lia|]. cbn [andb].
  unfold fmt_num_1f, as_float. rewrite float_of_int_small_neg by exact Hn.
  unfold fmt_1f. cbn [inject_Z Qnum].
  destruct (Z.ltb_spec n 0); [|lia].
  assert (E : round_tenths (Qabs (inject_Z n)) = - n * 10).
  { unfold round_tenths, inject_Z. cbn [Qabs Qnum Qden].
    rewrite Z.abs_neq by lia.
    rewrite Z.div_1_r, Z.mod_1_r. reflexivity. }
  rewrite E. rewrite Z.div_mul by lia. rewrite Z.mod_mul by lia.
  rewrite <- !app_assoc. reflexivity.
Qed.

Lemma format_size_negative_witness :
  - 2 ^ 53 < - 2048 < 0 /\ format_size (- 2048) = lit "-2048.0 B".
Proof.
  split; [lia|].
  apply (format_size_negative (- 2048)). lia.
Defined.

(** ** The console front end *)

Lemma str_eqb_eq (a b : pystr) : str_eqb a b = true -> a = b.
Proof.
  unfold str_eqb. now destruct (list_eq_dec N.eq_dec a b).
Qed.

Lemma str_in_In (x : pystr) (l : list pystr) : str_in x l = true -> In x l.
Proof.
  unfold str_in. rewrite existsb_exists. intros (y & Hy & E).
  apply str_eqb_eq in E. now subst.
Qed.

Lemma dotted_starts_with_dot (ext : pystr) :
  startswith (dotted ext) (lit ".") = true.
Proof.
  unfold dotted. destruct (startswith ext (lit ".")) eqn:E; [exact E|].
  simpl. now destruct ext.
Qed.

(** X13. The console never hands [scan_directory] an empty list of
    extensions, and every extension it hands over starts with a dot
    (one given with its dot is passed as it is).  So when extensions
    are given on the command line, every file node of the tree has a
    suffix equal, up to case, to one of them with its dot. *)
Theorem console_extensions {L : StrLower} fs (args : console_args) t s :
  scan_directory fs init (arg_directory args) (console_scan_options args) =
    Returned t s ->
  (forall exts,
      extensions (console_scan_options args) = Some exts ->
      exts <> [] /\
      Forall (fun e => startswith e (lit ".") = true) exts) /\
  (forall given,
      arg_extensions args = Some given -> given <> [] ->
      forall x, In x (nodes t) -> is_directory x = false ->
        exists e, In e given /\
                  lower (node_extension x) = lower (dotted e)) /\
  (forall e, startswith e (lit ".") = true -> dotted e = e).
Proof.
  intros Hscan. split; [|split].
  - intros exts He. unfold console_scan_options in He. cbn [extensions] in He.
    destruct (arg_extensions args) as [[|g gs]|]; try discriminate.
    inversion He; subst. split; [discriminate|].
    apply Forall_forall. intros e Hin.
    change (In e (map dotted (g :: gs))) in Hin. apply in_map_iff in Hin.
    destruct Hin as (e0 & <- & _). apply dotted_starts_with_dot.
  - intros given Hg Hne x Hx Hfile.
    destruct (scan_directory_built _ _ _ _ _ _ Hscan) as (s1 & Hb & _).
    apply nodes_root_or_descendant in Hx. destruct Hx as [->|Hx].
    { destruct (built_is_directory _ _ _ _ _ _ Hb)
        as (sz & cs & fc & dc & ->). discriminate. }
    destruct (built_passed _ _ _ _ _ _ Hb x Hx) as [_ Hf].
    destruct (Hf Hfile) as (_ & Hr & _ & ->).
    unfold extension_rejects, console_scan_options in Hr.
    cbn [extensions] in Hr. rewrite Hg in Hr.
    destruct given as [|g gs]; [congruence|].
    cbn [map] in Hr. apply negb_false_iff in Hr.
    apply str_in_In in Hr. change (lower (dotted g) :: map lower (map dotted gs))
      with (map lower (map dotted (g :: gs))) in Hr.
    apply in_map_iff in Hr. destruct Hr as (d & Hd & Hin).
    change (In d (map dotted (g :: gs))) in Hin.
    apply in_map_iff in Hin. destruct Hin as (e & <- & Hin).
    exists e. split; [exact Hin|now symmetry].
  - intros e He. unfold dotted. now rewrite He.
Qed.

Lemma console_extensions_witness :
  exists t s,
    scan_directory (L := ascii_lower) sample_fs init
                   (arg_directory sample_args)
                   (console_scan_options sample_args) = Returned t s /\
    extensions (console_scan_options sample_args) =
      Some [lit ".py"; lit ".TXT"] /\
    file_count s = 3 /\
    forall x, In x (nodes t) -> is_directory x = false ->
      exists e, In e [lit "py"; lit ".TXT"] /\
                ascii_lower (node_extension x) = ascii_lower (dotted e).
Proof.
  eexists. eexists. split; [vm_compute; reflexivity|].
  split; [reflexivity|]. split; [reflexivity|].
  refine (proj1 (proj2 (console_extensions (L := ascii_lower) sample_fs
                          sample_args _ _ _))
                [lit "py"; lit ".TXT"] eq_refl _).
  - vm_compute. reflexivity.
  - discriminate.
Defined.

(** X14. The sizes given to the console in megabytes bound the file
    sizes in bytes, 1048576 to the megabyte, bounds included; but a
    size given as 0 is no bound at all: the options built are those
    built when it is not given. *)
Theorem console_sizes {L : StrLower} fs (args : console_args) t s :
  scan_directory fs init (arg_directory args) (console_scan_options args) =
    Returned t s ->
  (forall x, In x (nodes t) -> is_directory x = false ->
     (forall q, arg_min_size args = Some (Finite q) -> Qnum q <> 0 ->
                (q * inject_Z 1024 * inject_Z 1024 <=
                 inject_Z (node_size x))%Q) /\
     (forall q, arg_max_size args = Some (Finite q) -> Qnum q <> 0 ->
                (inject_Z (node_size x) <=
                 q * inject_Z 1024 * inject_Z 1024)%Q)) /\
  (forall q other,
      Qnum q = 0 ->
      console_scan_options (with_sizes args other (Some (Finite q))) =
      console_scan_options (with_sizes args other None) /\
      console_scan_options (with_sizes args (Some (Finite q)) other) =
      console_scan_options (with_sizes args None other)).
Proof.
  intros Hscan. split.
  - intros x Hx Hfile.
    destruct (scan_directory_built _ _ _ _ _ _ Hscan) as (s1 & Hb & _).
    apply nodes_root_or_descendant in Hx. destruct Hx as [->|Hx].
    { destruct (built_is_directory _ _ _ _ _ _ Hb)
        as (sz & cs & fc & dc & ->). discriminate. }
    destruct (built_passed _ _ _ _ _ _ Hb x Hx) as [_ Hf].
    destruct (Hf Hfile) as (_ & _ & Hs & _).
    unfold size_rejects, console_scan_options in Hs. cbn [size_filter] in Hs.
    split; intros q Hq Hnz.
    + rewrite Hq in Hs. cbn [float_given] in Hs.
      apply Z.eqb_neq in Hnz. rewrite Hnz in Hs. cbn [negb orb] in Hs.
      apply orb_false_iff in Hs. destruct Hs as [Hlo _].
      cbn [megabytes lt_bound] in Hlo. apply negb_false_iff in Hlo.
      now apply Qle_bool_iff.
    + rewrite Hq in Hs. cbn [float_given] in Hs.
      apply Z.eqb_neq in Hnz. rewrite Hnz in Hs.
      rewrite orb_true_r in Hs. cbn [negb] in Hs.
      apply orb_false_iff in Hs. destruct Hs as [_ Hhi].
      cbn [megabytes gt_bound] in Hhi. apply negb_false_iff in Hhi.
      now apply Qle_bool_iff.
  - intros q other Hz. unfold console_scan_options, with_sizes.
    cbn [arg_max_depth arg_hidden arg_no_files arg_extensions arg_min_size
         arg_max_size float_given].
    apply Z.eqb_eq in Hz. rewrite Hz. cbn [negb].
    rewrite orb_false_r. cbn [orb].
    split; reflexivity.
Qed.

Lemma console_sizes_witness :
  exists t s,
    scan_directory (L := ascii_lower) sample_fs init (lit "/proj")
      (console_scan_options
         (with_sizes sample_args (Some (Finite (19 # 2097152)))
                     (Some (Finite (39 # 2097152))))) = Returned t s /\
    Qnum (19 # 2097152) <> 0 /\
    file_count s = 1 /\
    forall x, In x (nodes t) -> is_directory x = false ->
      ((19 # 2097152) * inject_Z 1024 * inject_Z 1024 <=
       inject_Z (node_size x))%Q.
Proof.
  eexists. eexists. split; [vm_compute; reflexivity|].
  split; [discriminate|]. split; [reflexivity|].
  intros x Hx Hfile.
  refine (proj1 (proj1 (console_sizes (L := ascii_lower) sample_fs
                          (with_sizes sample_args (Some (Finite (19 # 2097152)))
                                      (Some (Finite (39 # 2097152))))
                          _ _ _) x Hx Hfile)
                (19 # 2097152) eq_refl _).
  - vm_compute. reflexivity.
  - discriminate.
Defined.



(** ** A depth limit that the tree does not reach *)

Section DepthBeyond.
Context {L : StrLower}.
Variable opts : scan_options.

Lemma scan_item_any_depth_limit m1 m2 path d rec1 rec2 item acc :
  (forall p s, rec1 p (d + 1) s = rec2 p (d + 1) s) ->
  scan_item (with_max_depth opts m1) path d rec1 item acc =
  scan_item (with_max_depth opts m2) path d rec2 item acc.
Proof.
  intros Hrec. unfold scan_item. destruct acc as [nd s], item as [name obj].
  change (skip_hidden (with_max_depth opts m1) name)
    with (skip_hidden (with_max_depth opts m2) name).
  change (extension_rejects (with_max_depth opts m1) name)
    with (extension_rejects (with_max_depth opts m2) name).
  cbn [include_files with_max_depth].
  rewrite Hrec. reflexivity.
Qed.

Lemma scan_items_any_depth_limit m1 m2 path d rec1 rec2 items : forall acc,
  Forall (fun e => forall p s,
              rec1 (snd e) p (d + 1) s = rec2 (snd e) p (d + 1) s) items ->
  scan_items (with_max_depth opts m1) path d rec1 items acc =
  scan_items (with_max_depth opts m2) path d rec2 items acc.
Proof.
  induction items as [|item items IH]; intros acc Hall; [reflexivity|].
  rewrite !scan_items_cons. inversion_clear Hall as [|? ? H1 H2].
  rewrite (scan_item_any_depth_limit m1 m2 path d _ (rec2 (snd item)))
    by exact H1.
  now apply IH.
Qed.

Lemma dir_levels_entry (entries : list (pystr * fsobj)) e :
  In e entries ->
  dir_levels (snd e) <=
  fold_right (fun e acc => Z.max (dir_levels (snd e)) acc) 0 entries.
Proof.
  induction entries as [|x l IH]; intros Hin; [contradiction|].
  cbn [fold_right]. destruct Hin as [->|Hin]; [lia|].
  specialize (IH Hin). lia.
Qed.

Lemma _scan_recursive_depth_beyond k (dir : fsobj) : forall path d s,
  d + dir_levels dir <= k ->
  _scan_recursive (with_max_depth opts (Some k)) dir path d s =
  _scan_recursive (with_max_depth opts None) dir path d s.
Proof.
  induction dir as [st| | |entries IH] using fsobj_tree_ind;
    intros path d s Hk; rewrite !_scan_recursive_eq;
    unfold depth_reached; cbn [max_depth with_max_depth];
    try (destruct (k <=? d); reflexivity).
  cbn [dir_levels] in Hk.
  assert (Hmax := fun e => dir_levels_entry entries e).
  set (mx := fold_right (fun e acc => Z.max (dir_levels (snd e)) acc)
                        0 entries) in *.
  assert (0 <= mx).
  { subst mx. clear. induction entries; cbn [fold_right]; lia. }
  destruct (Z.leb_spec k d); [lia|].
  apply scan_items_any_depth_limit. apply sort_by_Forall.
  rewrite Forall_forall in IH |- *. intros e He p s0.
  apply IH; [exact He|]. specialize (Hmax e He). lia.
Qed.

End DepthBeyond.

(** X16. A depth limit that is at least the number of directory levels
    at and below the scanned path changes nothing: such a call of
    [scan_directory] ends exactly as the call without limit does, with
    the same tree, the same counters or the same exception. *)
Theorem scan_depth_beyond_tree {L : StrLower} fs self path opts k dir :
  lookup fs (resolve fs path) = Some dir ->
  dir_levels dir <= k ->
  scan_directory fs self path (with_max_depth opts (Some k)) =
  scan_directory fs self path (with_max_depth opts None).
Proof.
  intros Hl Hk. unfold scan_directory. rewrite Hl.
  destruct (negb (is_dir dir)); [reflexivity|].
  rewrite (_scan_recursive_depth_beyond opts k dir) by lia.
  reflexivity.
Qed.

Lemma scan_depth_beyond_tree_witness :
  exists dir,
    lookup sample_fs (resolve sample_fs (lit "/proj")) = Some dir /\
    dir_levels dir = 3 /\
    scan_directory (L := ascii_lower) sample_fs init (lit "/proj")
                   (with_max_depth default_options (Some 3)) =
    scan_directory (L := ascii_lower) sample_fs init (lit "/proj")
                   (with_max_depth default_options None) /\
    scan_directory (L := ascii_lower) sample_fs init (lit "/proj")
                   (with_max_depth default_options (Some 2)) <>
    scan_directory (L := ascii_lower) sample_fs init (lit "/proj")
                   (with_max_depth default_options None).
Proof.
  eexists. split; [vm_compute; reflexivity|]. split; [reflexivity|].
  split.
  - eapply (scan_depth_beyond_tree (L := ascii_lower) sample_fs init
              (lit "/proj") default_options 3).
    + vm_compute. reflexivity.
    + vm_compute. discriminate.
  - vm_compute. discriminate.
Defined.

(** ** Nothing in the tree is made up *)

Section StandsFor.
Context {L : StrLower}.
Variable opts : scan_options.

Lemma stands_for_entry path entries name obj x :
  In (name, obj) entries ->
  stands_for (path_child path name) obj x ->
  stands_for path (FsDir (Some entries)) x.
Proof.
  intros Hin (rel & o & Hr & Hp & Hn & Hk).
  exists (name :: rel), o. unfold path_child in Hp, Hn.
  rewrite <- app_assoc in Hp, Hn. cbn [app] in Hp, Hn.
  repeat split; try assumption. econstructor; eassumption.
Qed.

Lemma path_name_child path name : path_name (path_child path name) = name.
Proof. unfold path_name, path_child. apply last_last. Qed.

Lemma scan_item_stands path d rec entries name obj nd s :
  In (name, obj) entries ->
  (is_dir obj = true ->
   forall p d' s' x, In x (nodes (fst (rec p d' s'))) -> stands_for p obj x) ->
  stands_so_far path (FsDir (Some entries)) nd ->
  stands_so_far path (FsDir (Some entries))
        (fst (scan_item opts path d rec (name, obj) (nd, s))).
Proof.
  intros Hin Hrec Hh. unfold scan_item.
  destruct (skip_hidden opts name); [exact Hh|].
  destruct Hh as (Hd & Hp & Hn & Hc).
  destruct nd as [nm p sz cs fc dc|]; [|discriminate].
  cbn [node_children node_path node_name] in *.
  destruct (is_dir obj) eqn:Ho.
  - specialize (Hrec eq_refl (path_child path name) (d + 1) s).
    destruct (rec (path_child path name) (d + 1) s) as [child s1].
    cbn [fst add_directory] in *.
    repeat split; try assumption.
    cbn [node_children]. intros c x Hcin Hx.
    apply in_app_or in Hcin. destruct Hcin as [Hcin|[<-|[]]].
    + eapply Hc; eassumption.
    + eapply stands_for_entry; [exact Hin|]. now apply Hrec.
  - destruct (include_files opts); cbn [andb];
      [|repeat split; assumption].
    destruct obj as [[st|]|e|]; cbn [is_file];
      try (repeat split; assumption).
    destruct (extension_rejects opts name); [repeat split; assumption|].
    destruct (size_rejects opts (st_size st)); [repeat split; assumption|].
    cbn [fst add_file]. repeat split; try assumption.
    cbn [node_children]. intros c x Hcin Hx.
    apply in_app_or in Hcin. destruct Hcin as [Hcin|[<-|[]]].
    + eapply Hc; eassumption.
    + destruct Hx as [<-|[]].
      exists [name], (FsFile (Some st)).
      repeat split.
      * econstructor; [exact Hin|constructor].
      * cbn [node_name]. fold (path_child path name).
        now rewrite path_name_child.
      * exists st. repeat split.
Qed.

Lemma scan_items_stands path d rec entries items : forall nd s,
  Forall (fun e =>
            In e entries /\
            (is_dir (snd e) = true ->
             forall p d' s' x, In x (nodes (fst (rec (snd e) p d' s'))) ->
                               stands_for p (snd e) x)) items ->
  stands_so_far path (FsDir (Some entries)) nd ->
  stands_so_far path (FsDir (Some entries))
        (fst (scan_items opts path d rec items (nd, s))).
Proof.
  induction items as [|[name obj] items IH]; intros nd s Hall Hh;
    [exact Hh|].
  rewrite scan_items_cons. inversion_clear Hall as [|? ? [H1 H1'] H2].
  cbn [snd] in H1' |- *.
  pose proof (scan_item_stands path d (rec obj) entries name obj nd s H1 H1' Hh)
    as Hstep.
  destruct (scan_item opts path d (rec obj) (name, obj) (nd, s)) as [nd' s'].
  now apply IH.
Qed.

Lemma stands_so_far_new path dir : stands_so_far path dir (new_node path).
Proof. repeat split. intros c x []. Qed.

Lemma _scan_recursive_stands (dir : fsobj) : forall path d s,
  stands_so_far path dir (fst (_scan_recursive opts dir path d s)).
Proof.
  induction dir as [st| | |entries IH] using fsobj_tree_ind;
    intros path d s; rewrite _scan_recursive_eq;
    destruct (depth_reached opts d); try apply stands_so_far_new.
  apply scan_items_stands; [|apply stands_so_far_new].
  apply sort_by_Forall. rewrite Forall_forall in IH |- *.
  intros e He. split; [exact He|].
  intros Hd p d' s' x Hx.
  destruct (IH e He p d' s') as (Hdir & Hp & Hn & Hc).
  destruct (fst (_scan_recursive opts (snd e) p d' s'))
    as [nm pp sz cs fc dc|] eqn:E; [|discriminate].
  cbn [node_path node_name node_children] in *.
  cbn [nodes] in Hx. destruct Hx as [<-|Hx].
  - exists [], (snd e). rewrite app_nil_r.
    repeat split; try assumption. constructor.
  - apply in_flat_map in Hx. destruct Hx as (c & Hcin & Hx).
    eapply Hc; eassumption.
Qed.

End StandsFor.

(** X17. Nothing in the tree of a scan is made up: every node stands
    for an entry that the file system holds at or below the scanned
    directory.  Its path is the resolved path followed by the names
    that lead to the entry, its name is the last of them, a directory
    node stands for a directory, and a file node for a file whose size
    and time it holds, with the suffix of its name. *)
Theorem scan_nodes_stand_for_entries {L : StrLower}
    fs self path opts dir t self' :
  lookup fs (resolve fs path) = Some dir ->
  scan_directory fs self path opts = Returned t self' ->
  forall x, In x (nodes t) -> stands_for (resolve fs path) dir x.
Proof.
  intros Hl Hscan x Hx.
  destruct (scan_directory_returned _ _ _ _ _ _ Hscan)
    as (dir' & Hl' & Hd & -> & _).
  rewrite Hl in Hl'. inversion Hl'; subst dir'.
  set (p := resolve fs path) in *.
  destruct (_scan_recursive_stands opts dir p 0 (reset self p))
    as (Hdir & Hp & Hn & Hc).
  destruct (fst (_scan_recursive opts dir p 0 (reset self p)))
    as [nm pp sz cs fc dc|] eqn:E; [|discriminate].
  cbn [node_path node_name node_children] in *.
  cbn [nodes] in Hx. destruct Hx as [<-|Hx].
  - exists [], dir. rewrite app_nil_r.
    repeat split; try assumption. constructor.
  - apply in_flat_map in Hx. destruct Hx as (c & Hcin & Hx).
    eapply Hc; eassumption.
Qed.

Lemma scan_nodes_stand_for_entries_witness :
  exists dir t s,
    lookup sample_fs (resolve sample_fs (lit "/proj")) = Some dir /\
    scan_directory (L := ascii_lower) sample_fs init (lit "/proj")
                   default_options = Returned t s /\
    Z.of_nat (List.length (nodes t)) = 6 /\
    forall x, In x (nodes t) -> stands_for [lit "proj"] dir x.
Proof.
  eexists. eexists. eexists.
  split; [vm_compute; reflexivity|].
  split; [vm_compute; reflexivity|].
  split; [reflexivity|].
  refine (scan_nodes_stand_for_entries (L := ascii_lower) sample_fs init
            (lit "/proj") default_options _ _ _ _ _).
  - vm_compute. reflexivity.
  - vm_compute. reflexivity.
Defined.

(** ** The order of the listings *)

Lemma str_leb_antisym (a : pystr) : forall b,
  str_leb a b = true -> str_leb b a = true -> a = b.
Proof.
  induction a as [|c a IH]; intros [|d b]; simpl; try easy.
  destruct (N.ltb_spec c d), (N.ltb_spec d c); try easy; try lia.
  intros H1 H2. assert (c = d) by lia. subst. f_equal. now apply IH.
Qed.

Lemma key_leb_antisym (a b : sort_key) :
  key_leb a b = true -> key_leb b a = true -> a = b.
Proof.
  destruct a as [fa sa], b as [fb sb]. unfold key_leb. cbn [fst snd].
  destruct fa, fb; try easy; intros H1 H2; f_equal;
    now apply str_leb_antisym.
Qed.

Section SortedOnce.
Context {A : Type}.
Variable key : A -> sort_key.

Lemma sort_by_of_sorted (l : list A) :
  StronglySorted (key_le key) l -> sort_by key l = l.
Proof.
  induction 1 as [|x l Hs IH Hx]; [reflexivity|].
  cbn [sort_by fold_right]. fold (sort_by key l). rewrite IH.
  now apply insert_by_below.
Qed.

Lemma sorted_perm_unique (l1 : list A) : forall l2,
  StronglySorted (key_le key) l1 -> StronglySorted (key_le key) l2 ->
  Permutation l1 l2 -> NoDup (map key l1) -> l1 = l2.
Proof.
  induction l1 as [|x l1 IH]; intros l2 H1 H2 Hp Hn.
  - apply Permutation_nil in Hp. now subst.
  - destruct l2 as [|y l2].
    { apply Permutation_sym, Permutation_nil in Hp. discriminate. }
    inversion H1 as [|? ? Hs1 Hx]; subst.
    inversion H2 as [|? ? Hs2 Hy]; subst.
    inversion Hn as [|? ? Hnx Hn']; subst.
    assert (E : x = y).
    { assert (Hxin : In x (y :: l2))
        by (eapply Permutation_in; [exact Hp|now left]).
      assert (Hyin : In y (x :: l1))
        by (eapply Permutation_in;
            [apply Permutation_sym; exact Hp|now left]).
      destruct Hxin as [->|Hxin]; [reflexivity|].
      destruct Hyin as [->|Hyin]; [reflexivity|].
      rewrite Forall_forall in Hx, Hy.
      pose proof (key_leb_antisym _ _ (Hx y Hyin) (Hy x Hxin)) as Ek.
      exfalso. apply Hnx. rewrite Ek. now apply in_map. }
    subst y. f_equal. apply IH; try assumption.
    eapply Permutation_cons_inv; exact Hp.
Qed.

(** Listings that are rearrangements of each other, no two entries
    under the same key, are sorted into the same list. *)
Lemma sort_by_rearranged (l1 l2 : list A) :
  Permutation l1 l2 -> NoDup (map key l1) ->
  sort_by key l1 = sort_by key l2.
Proof.
  intros Hp Hn. apply sorted_perm_unique.
  - apply sort_by_sorted.
  - apply sort_by_sorted.
  - rewrite (sort_by_perm key l1), (sort_by_perm key l2). exact Hp.
  - eapply Permutation_NoDup; [|exact Hn].
    apply Permutation_map, Permutation_sym, sort_by_perm.
Qed.
End SortedOnce.

Section ListingOrder.
Context {L : StrLower}.
Variable opts : scan_options.

Lemma sorted_listings_dir (entries : list (pystr * fsobj)) :
  sorted_listings (FsDir (Some entries)) =
  FsDir (Some (sort_by item_key (map sorted_image entries))).
Proof.
  simpl. do 3 f_equal.
  induction entries as [|[name obj] l IH]; simpl; [reflexivity|].
  now rewrite IH.
Qed.

Lemma is_file_sorted (o : fsobj) : is_file (sorted_listings o) = is_file o.
Proof. destruct o as [st|[entries|]|]; reflexivity. Qed.

Lemma is_dir_sorted (o : fsobj) : is_dir (sorted_listings o) = is_dir o.
Proof. destruct o as [st|[entries|]|]; reflexivity. Qed.

Lemma item_key_sorted (e : pystr * fsobj) :
  item_key (sorted_image e) = item_key e.
Proof.
  unfold item_key, sorted_image. simpl. now rewrite is_file_sorted.
Qed.

Lemma scan_items_sorted path d rec (items : list (pystr * fsobj)) :
  Forall (fun e => forall p' d' s',
              rec (sorted_listings (snd e)) p' d' s' = rec (snd e) p' d' s')
         items ->
  forall acc,
    scan_items opts path d rec (map sorted_image items) acc =
    scan_items opts path d rec items acc.
Proof.
  induction 1 as [|[name obj] items Hrec _ IH]; intros [nd s]; [reflexivity|].
  simpl map. rewrite !scan_items_cons, IH. f_equal.
  unfold sorted_image. cbn [fst snd] in *. unfold scan_item.
  rewrite is_dir_sorted, Hrec.
  destruct obj as [[st|]|[entries|]|]; reflexivity.
Qed.

Lemma _scan_recursive_sorted (dir : fsobj) : forall path d s,
  _scan_recursive opts (sorted_listings dir) path d s =
  _scan_recursive opts dir path d s.
Proof.
  induction dir as [st| | |entries IH] using fsobj_tree_ind;
    intros path d s; try reflexivity.
  rewrite sorted_listings_dir, !_scan_recursive_eq.
  destruct (depth_reached opts d); [reflexivity|].
  rewrite (sort_by_of_sorted item_key) by apply sort_by_sorted.
  rewrite (sort_by_map item_key item_key sorted_image)
    by apply item_key_sorted.
  apply scan_items_sorted. apply sort_by_Forall. exact IH.
Qed.

(** X18. A scan does not depend on the order in which the file system
    lists the entries of a directory, but for entries under the same
    sort key: two file systems that hold the same at the scanned path
    once every listing is sorted by that key are scanned alike, and
    two listings that are rearrangements of each other, without two
    entries under one key, are the same once sorted. *)
Theorem scan_ignores_listing_order fs1 fs2 self path :
  resolve fs1 path = resolve fs2 path ->
  option_map sorted_listings (lookup fs1 (resolve fs1 path)) =
  option_map sorted_listings (lookup fs2 (resolve fs2 path)) ->
  scan_directory fs1 self path opts = scan_directory fs2 self path opts /\
  (forall l1 l2 : list (pystr * fsobj),
      Permutation l1 l2 -> NoDup (map item_key l1) ->
      sort_by item_key l1 = sort_by item_key l2).
Proof.
  intros Hr Hl. split; [|intros l1 l2; apply sort_by_rearranged].
  unfold scan_directory. rewrite <- Hr in *.
  destruct (lookup fs1 (resolve fs1 path)) as [d1|],
           (lookup fs2 (resolve fs1 path)) as [d2|];
    try discriminate; [|reflexivity].
  injection Hl as Hl.
  rewrite <- (is_dir_sorted d1), <- (is_dir_sorted d2), Hl.
  destruct (is_dir (sorted_listings d2)); [|reflexivity]. cbn [negb].
  rewrite <- (_scan_recursive_sorted d1), <- (_scan_recursive_sorted d2), Hl.
  reflexivity.
Qed.
End ListingOrder.

Lemma scan_ignores_listing_order_witness :
  sample_root_rearranged <> sample_root /\
  scan_directory (L := ascii_lower) (fs_of sample_root_rearranged) init
                 (lit "/proj") show_all =
  scan_directory (L := ascii_lower) sample_fs init (lit "/proj") show_all.
Proof.
  split; [discriminate|].
  apply (scan_ignores_listing_order (L := ascii_lower) show_all
           (fs_of sample_root_rearranged) sample_fs init (lit "/proj")).
  - reflexivity.
  - vm_compute. reflexivity.
Defined.

(** ** The text of a fresh scan *)

Lemma nodes_count (n : node) :
  Z.of_nat (List.length (nodes n)) = 1 + files_below n + folders_below n.
Proof.
  induction n as [name path size ext modified
                 |name path size children fc dc IH] using node_tree_ind;
    [reflexivity|].
  cbn [nodes files_below folders_below List.length].
  rewrite Nat2Z.inj_succ.
  induction children as [|c cs IHcs]; [reflexivity|].
  inversion_clear IH as [|? ? Hc Hcs]. specialize (IHcs Hcs).
  cbn [flat_map fold_right]. rewrite length_app, Nat2Z.inj_add, Hc.
  destruct c; cbn [is_directory files_below folders_below] in *; lia.
Qed.

(** X19. The text of the tree a scan has just built has three lines
    more than the scan counted folders and files: the header, the
    empty line and the line of the scanned directory, then one line
    for each folder and each file that the header announces. *)
Theorem render_lines_as_counted {L : StrLower}
    fs self path opts t self' style show_size show_count max_width :
  scan_directory fs self path opts = Returned t self' ->
  render_text_tree self' style show_size show_count max_width =
    join [10%N] (text_lines self' t style show_size show_count max_width) /\
  Z.of_nat (List.length
              (text_lines self' t style show_size show_count max_width)) =
    3 + folder_count self' + file_count self'.
Proof.
  intros Hscan.
  destruct (scan_directory_built _ _ _ _ _ _ Hscan) as (s1 & Hb & ->).
  split; [reflexivity|].
  rewrite text_lines_eq.
  pose proof (composed_lines_preorder show_size show_count
                (dict_get styles style unicode_style) t [] true) as Hpre.
  cbn [List.length]. rewrite length_map, <- (Forall2_length Hpre).
  rewrite !Nat2Z.inj_succ, nodes_count.
  destruct (built_counters _ _ _ _ _ _ Hb) as (Hf & Hd & _).
  destruct (built_counts _ _ _ _ _ _ Hb) as (Hf' & Hd').
  cbn [folder_count file_count set_tree_data reset] in *.
  lia.
Qed.

Lemma render_lines_as_counted_witness :
  exists t s,
    scan_directory (L := ascii_lower) sample_fs init (lit "/proj")
                   show_all = Returned t s /\
    folder_count s = 3 /\ file_count s = 5 /\
    Z.of_nat (List.length
                (text_lines (L := ascii_lower) s t (lit "simple")
                            false true 20)) = 11.
Proof.
  eexists. eexists. split; [vm_compute; reflexivity|].
  split; [reflexivity|]. split; [reflexivity|].
  refine (proj2 (render_lines_as_counted (L := ascii_lower) sample_fs init
                   (lit "/proj") show_all _ _ (lit "simple") false true 20 _)).
  vm_compute. reflexivity.
Defined.
